(** * transform_csv: a shallow embedding of the CSV transformer

    The development follows [transform_csv.py]: the module-level name and
    domain pools, the [CSVTransformer] class with its identifier mapping,
    the two redaction generators, the timestamp normaliser, the dispatcher
    [apply_transformation] and the row engine [transform_csv].

    Conventions.
    - A Python [str] is a Rocq [string]; one [ascii] stands for one code
      point below 256.
    - A Python [int] is a [Z].
    - A [dict] is a stdpp [gmap]; the literal registry of transformations,
      whose key order is printed in an error message, is an association
      list.
    - Methods that touch the instance state or the module [random] run in
      the monad [M]: a world (instance fields and generator state) goes in,
      an outcome (a value or a raised exception) and a world come out. *)

From Stdlib Require Import ZArith NArith Ascii String List Lia DecimalString.
From Stdlib Require Import DecimalPos DecimalZ.
From stdpp Require Import gmap strings list fin_maps.

Local Open Scope Z_scope.

(** ** Exceptions, worlds and the monad *)

Inductive exn : Type :=
| ValueError (msg : string)
| KeyError (key : string)
| IndexError (msg : string).

Inductive outcome (A : Type) : Type :=
| Return (a : A)
| Raise (e : exn).
Arguments Return {A} a.
Arguments Raise {A} e.

(** The fields set by [CSVTransformer.__init__]. *)
Record CSVTransformer : Type := mkCSVTransformer {
  uuid_to_int_map : gmap string Z;
  next_id : Z
}.

(** [CSVTransformer()] *)
Definition new_transformer : CSVTransformer :=
  {| uuid_to_int_map := ∅; next_id := 1 |}.

(** The state of the module [random] is a tape of raw draws: every call
    into the generator consumes one cell; an exhausted tape keeps
    answering 0. *)
Record World : Type := mkWorld {
  self : CSVTransformer;
  rng : list N
}.

Definition M (A : Type) : Type := World -> outcome A * World.

Definition ret {A} (a : A) : M A := fun w => (Return a, w).

Definition raise {A} (e : exn) : M A := fun w => (Raise e, w).

Definition bind {A B} (m : M A) (k : A -> M B) : M B :=
  fun w =>
    match m w with
    | (Return a, w') => k a w'
    | (Raise e, w') => (Raise e, w')
    end.

Global Instance M_ret : MRet M := @ret.
Global Instance M_bind : MBind M := fun A B k m => bind m k.

(** Run a method of the instance that neither raises nor draws. *)
Definition on_self {A} (f : CSVTransformer -> A * CSVTransformer) : M A :=
  fun w => let '(a, t) := f (self w) in
           (Return a, {| self := t; rng := rng w |}).

(** ** IdentifierMapper: [uuid_to_sequential_int] *)

Definition uuid_to_sequential_int (uuid_string : string)
    (t : CSVTransformer) : Z * CSVTransformer :=
  match uuid_to_int_map t !! uuid_string with
  | Some n => (n, t)
  | None =>
      let t1 := {| uuid_to_int_map :=
                     <[uuid_string := next_id t]> (uuid_to_int_map t);
                   next_id := next_id t |} in
      let t2 := {| uuid_to_int_map := uuid_to_int_map t1;
                   next_id := next_id t1 + 1 |} in
      (uuid_to_int_map t2 !!! uuid_string, t2)
  end.

(** A sequence of calls on one instance, results in call order. *)
Fixpoint map_calls (ids : list string) (t : CSVTransformer)
    : list Z * CSVTransformer :=
  match ids with
  | [] => ([], t)
  | u :: rest =>
      let '(n, t1) := uuid_to_sequential_int u t in
      let '(ns, t2) := map_calls rest t1 in
      (n :: ns, t2)
  end.

(** The distinct identifiers of a call sequence, in first-seen order. *)
Definition see (seen : list string) (u : string) : list string :=
  if decide (u ∈ seen) then seen else seen ++ [u].

Definition first_seen_from (seen ids : list string) : list string :=
  fold_left see ids seen.

Definition first_seen (ids : list string) : list string :=
  first_seen_from [] ids.

(** ** Module-level pools *)

Definition FIRST_NAMES : list string := [
  "James"; "Mary"; "John"; "Patricia"; "Robert"; "Jennifer"; "Michael";
  "Linda"; "William"; "Elizabeth"; "David"; "Barbara"; "Richard"; "Susan";
  "Joseph"; "Jessica"; "Thomas"; "Sarah"; "Charles"; "Karen"; "Christopher";
  "Nancy"; "Daniel"; "Lisa"; "Matthew"; "Betty"; "Anthony"; "Margaret";
  "Mark"; "Sandra"; "Donald"; "Ashley"; "Steven"; "Kimberly"; "Paul";
  "Emily"; "Andrew"; "Donna"; "Joshua"; "Michelle"; "Kenneth"; "Dorothy";
  "Kevin"; "Carol"; "Brian"; "Amanda"; "George"; "Melissa"; "Timothy";
  "Deborah"; "Ronald"; "Stephanie"; "Edward"; "Rebecca"; "Jason"; "Sharon";
  "Jeffrey"; "Laura"; "Ryan"; "Cynthia"; "Jacob"; "Kathleen"
].

Definition LAST_NAMES : list string := [
  "Smith"; "Johnson"; "Williams"; "Brown"; "Jones"; "Garcia"; "Miller";
  "Davis"; "Rodriguez"; "Martinez"; "Hernandez"; "Lopez"; "Gonzalez";
  "Wilson"; "Anderson"; "Thomas"; "Taylor"; "Moore"; "Jackson"; "Martin";
  "Lee"; "Perez"; "Thompson"; "White"; "Harris"; "Sanchez"; "Clark";
  "Ramirez"; "Lewis"; "Robinson"; "Walker"; "Young"; "Allen"; "King";
  "Wright"; "Scott"; "Torres"; "Nguyen"; "Hill"; "Flores"; "Green";
  "Adams"; "Nelson"; "Baker"; "Hall"; "Rivera"; "Campbell"; "Mitchell";
  "Carter"; "Roberts"
].

Definition EMAIL_DOMAINS : list string := [
  "test.com"; "example.com"; "demo.net"; "sample.org"; "redacted.io"
].

(** [string.ascii_lowercase], as the sequence of its characters. *)
Definition ascii_lowercase : list ascii :=
  list_ascii_of_string "abcdefghijklmnopqrstuvwxyz".

(** ** The module [random] over the tape *)

(** One draw, reduced below [n]: what [_randbelow(n)] and
    [floor(random() * n)] deliver. *)
Definition randbelow (n : N) : M N :=
  fun w =>
    match rng w with
    | [] => (Return 0%N, w)
    | x :: tape => (Return (x mod n)%N, {| self := self w; rng := tape |})
    end.

(** [random.choice(seq)] *)
Definition choice {A} (seq : list A) : M A :=
  i ← randbelow (N.of_nat (length seq));
  match seq !! N.to_nat i with
  | Some x => mret x
  | None => raise (IndexError "Cannot choose from an empty sequence")
  end.

(** [random.randint(a, b)] *)
Definition randint (a b : Z) : M Z :=
  i ← randbelow (Z.to_N (b - a + 1));
  mret (a + Z.of_N i).

(** [random.choices(population, k=k)]: [k] independent picks, in order. *)
Fixpoint choices {A} (population : list A) (k : nat) : M (list A) :=
  match k with
  | O => mret []
  | S k' =>
      x ← choice population;
      xs ← choices population k';
      mret (x :: xs)
  end.

(** ** Redactor *)

Definition redact_name (name : string) : M string :=
  first_name ← choice FIRST_NAMES;
  last_name ← choice LAST_NAMES;
  mret (first_name +:+ " " +:+ last_name).

Definition redact_email (email : string) : M string :=
  local_length ← randint 5 10;
  local_chars ← choices ascii_lowercase (Z.to_nat local_length);
  let local_part := string_of_list_ascii local_chars in
  domain ← choice EMAIL_DOMAINS;
  mret (local_part +:+ "@" +:+ domain).

(** [sub in s] for strings. *)
Fixpoint str_contains (sub s : string) : bool :=
  String.prefix sub s ||
  match s with
  | EmptyString => false
  | String _ s' => str_contains sub s'
  end.

Definition redact (value : string) : M string :=
  if str_contains "@" value then redact_email value else redact_name value.

(** ** String operations of [str] *)

(** [c.isspace()] for a code point below 256; also the class [\s] of the
    module [re] on [str] patterns. *)
Definition is_space (c : ascii) : bool :=
  let n := N_of_ascii c in
  ((9 <=? n) && (n <=? 13) || (28 <=? n) && (n <=? 32)
   || (n =? 133) || (n =? 160))%N.

(** The class [\d] on code points below 256. *)
Definition is_digit (c : ascii) : bool :=
  let n := N_of_ascii c in ((48 <=? n) && (n <=? 57))%N.

Fixpoint lstrip (s : string) : string :=
  match s with
  | EmptyString => EmptyString
  | String c s' => if is_space c then lstrip s' else s
  end.

Fixpoint rstrip (s : string) : string :=
  match s with
  | EmptyString => EmptyString
  | String c s' =>
      match rstrip s' with
      | EmptyString => if is_space c then EmptyString else String c EmptyString
      | r => String c r
      end
  end.

(** [s.strip()] *)
Definition strip (s : string) : string := rstrip (lstrip s).

(** [s.replace(old, new)] for a non-empty [old]: occurrences are found
    from the left and do not overlap. [skip] counts the characters of the
    occurrence just replaced that are still to be passed over. *)
Fixpoint replace_from (old new s : string) (skip : nat) : string :=
  match s with
  | EmptyString => EmptyString
  | String c s' =>
      match skip with
      | S k => replace_from old new s' k
      | O =>
          if String.prefix old s
          then new +:+ replace_from old new s' (String.length old - 1)
          else String c (replace_from old new s' O)
      end
  end.

Definition replace (old new s : string) : string := replace_from old new s O.

(** [s.split(sep)] for a one-character separator. *)
Fixpoint split_on (sep : ascii) (s : string) : list string :=
  match s with
  | EmptyString => [EmptyString]
  | String c s' =>
      if Ascii.eqb c sep then EmptyString :: split_on sep s'
      else match split_on sep s' with
           | [] => [String c EmptyString]
           | w :: ws => String c w :: ws
           end
  end.

(** [s.count(c)] for a one-character argument. *)
Fixpoint count_char (c : ascii) (s : string) : nat :=
  match s with
  | EmptyString => O
  | String d s' => (if Ascii.eqb d c then 1 else 0)%nat + count_char c s'
  end.

(** [c.lower()] on the letters A to Z. *)
Definition ascii_lower (c : ascii) : ascii :=
  let n := N_of_ascii c in
  if ((65 <=? n) && (n <=? 90))%N then ascii_of_N (n + 32) else c.

Fixpoint str_lower (s : string) : string :=
  match s with
  | EmptyString => EmptyString
  | String c s' => String (ascii_lower c) (str_lower s')
  end.

(** [int(s)] on an optional run of spaces followed by decimal digits, which
    is all the groups of the time patterns can capture. *)
Fixpoint digits_value (s : string) (acc : Z) : option Z :=
  match s with
  | EmptyString => Some acc
  | String c s' =>
      if is_digit c
      then digits_value s' (10 * acc + Z.of_N (N_of_ascii c - 48))
      else None
  end.

Definition int_of_str (s : string) : option Z :=
  match strip s with
  | EmptyString => None
  | t => digits_value t 0
  end.

(** [str(n)] for an [int]. *)
Definition str_of_int (n : Z) : string :=
  DecimalString.NilZero.string_of_int (Z.to_int n).

(** ** [datetime.strptime] and [strftime]

    The library routine compiles a format into a regular expression with
    one named group per directive, matches it against the data with the
    backtracking matcher of [re], insists that the match reaches the end
    of the data, converts the groups to integers and builds a [datetime],
    whose constructor checks the ranges. Every failure is a [ValueError];
    [None] stands for it below. Month names are those of the C locale. *)

Inductive regex : Type :=
| RChar (p : ascii -> bool)
| RSeq (r1 r2 : regex)
| RAlt (r1 r2 : regex)
| RMany1 (p : ascii -> bool).

(** Greedy [p+]: every non-empty run of [p] at the front, longest first. *)
Fixpoint many1 (p : ascii -> bool) (s : string) : list (string * string) :=
  match s with
  | EmptyString => []
  | String c s' =>
      if p c
      then map (fun '(m, rest) => (String c m, rest)) (many1 p s')
           ++ [(String c EmptyString, s')]
      else []
  end.

(** All ways to match [r] at the front of [s], as (matched text, rest), in
    the order in which a backtracking matcher finds them. *)
Fixpoint re_match (r : regex) (s : string) : list (string * string) :=
  match r with
  | RChar p =>
      match s with
      | String c s' => if p c then [(String c EmptyString, s')] else []
      | EmptyString => []
      end
  | RSeq r1 r2 =>
      flat_map (fun '(m1, rest1) =>
                  map (fun '(m2, rest2) => (m1 +:+ m2, rest2))
                      (re_match r2 rest1))
               (re_match r1 s)
  | RAlt r1 r2 => re_match r1 s ++ re_match r2 s
  | RMany1 p => many1 p s
  end.

(** A character, compared without regard to case (the patterns are
    compiled with [IGNORECASE]). *)
Definition chr_i (c : ascii) : regex :=
  RChar (fun d => Ascii.eqb (ascii_lower d) (ascii_lower c)).

Definition chr_range (lo hi : ascii) : regex :=
  RChar (fun d => (N_of_ascii lo <=? N_of_ascii d)%N
                  && (N_of_ascii d <=? N_of_ascii hi)%N).

Definition digit : regex := RChar is_digit.

Fixpoint word_i (w : string) : regex :=
  match w with
  | EmptyString => RMany1 (fun _ => false)
  | String c EmptyString => chr_i c
  | String c w' => RSeq (chr_i c) (word_i w')
  end.

Fixpoint alternatives (rs : list regex) : regex :=
  match rs with
  | [] => RMany1 (fun _ => false)
  | [r] => r
  | r :: rs' => RAlt r (alternatives rs')
  end.

(** [calendar.month_abbr], lower-cased, with its empty entry 0. *)
Definition a_month : list string :=
  [""; "jan"; "feb"; "mar"; "apr"; "may"; "jun";
   "jul"; "aug"; "sep"; "oct"; "nov"; "dec"].

(** One piece of a compiled format: a named group or plain text. *)
Inductive piece : Type :=
| Group (name : ascii) (r : regex)
| Plain (r : regex).

(** The entries of [TimeRE] for the directives used here. *)
Definition directive_regex (d : ascii) : option regex :=
  match d with
  | "d"%char =>
      Some (alternatives
              [RSeq (chr_i "3") (chr_range "0" "1");
               RSeq (chr_range "1" "2") digit;
               RSeq (chr_i "0") (chr_range "1" "9");
               chr_range "1" "9";
               RSeq (chr_i " ") (chr_range "1" "9")])
  | "H"%char =>
      Some (alternatives
              [RSeq (chr_i "2") (chr_range "0" "3");
               RSeq (chr_range "0" "1") digit;
               digit])
  | "m"%char =>
      Some (alternatives
              [RSeq (chr_i "1") (chr_range "0" "2");
               RSeq (chr_i "0") (chr_range "1" "9");
               chr_range "1" "9"])
  | "M"%char =>
      Some (alternatives [RSeq (chr_range "0" "5") digit; digit])
  | "S"%char =>
      Some (alternatives
              [RSeq (chr_i "6") (chr_range "0" "1");
               RSeq (chr_range "0" "5") digit;
               digit])
  | "Y"%char => Some (RSeq digit (RSeq digit (RSeq digit digit)))
  | "b"%char => Some (alternatives (map word_i (tail a_month)))
  | _ => None
  end.

(** [TimeRE.pattern]: a run of white space in the format becomes [\s+],
    [%x] becomes the group of directive [x], any other character stands
    for itself. [None] is the failure on an unknown directive. *)
Fixpoint compile_format (fmt : string) (in_space : bool)
    : option (list piece) :=
  match fmt with
  | EmptyString => Some []
  | String "%" (String d fmt') =>
      match directive_regex d, compile_format fmt' false with
      | Some r, Some ps => Some (Group d r :: ps)
      | _, _ => None
      end
  | String c fmt' =>
      if is_space c
      then if in_space then compile_format fmt' true
           else option_map (cons (Plain (RMany1 is_space)))
                           (compile_format fmt' true)
      else option_map (cons (Plain (chr_i c))) (compile_format fmt' false)
  end.

(** Matching a compiled format: the groups found and the rest of the data,
    again in backtracking order. *)
Fixpoint match_pieces (ps : list piece) (s : string)
    : list (list (ascii * string) * string) :=
  match ps with
  | [] => [([], s)]
  | Group name r :: ps' =>
      flat_map (fun '(m, rest) =>
                  map (fun '(gs, rest') => ((name, m) :: gs, rest'))
                      (match_pieces ps' rest))
               (re_match r s)
  | Plain r :: ps' =>
      flat_map (fun '(_, rest) => match_pieces ps' rest) (re_match r s)
  end.

Record datetime : Type := mkdatetime {
  year : Z; month : Z; day : Z;
  hour : Z; minute : Z; second : Z
}.

Definition is_leap (y : Z) : bool :=
  (y mod 4 =? 0) && (negb (y mod 100 =? 0) || (y mod 400 =? 0)).

Definition days_in_month (y m : Z) : Z :=
  if m =? 2 then (if is_leap y then 29 else 28)
  else if (m =? 4) || (m =? 6) || (m =? 9) || (m =? 11) then 30
  else 31.

(** The range checks of the [datetime] constructor. *)
Definition datetime_valid (d : datetime) : bool :=
  (1 <=? year d) && (year d <=? 9999)
  && (1 <=? month d) && (month d <=? 12)
  && (1 <=? day d) && (day d <=? days_in_month (year d) (month d))
  && (0 <=? hour d) && (hour d <=? 23)
  && (0 <=? minute d) && (minute d <=? 59)
  && (0 <=? second d) && (second d <=? 59).

(** [l.index(x)] *)
Fixpoint list_index (x : string) (l : list string) : option nat :=
  match l with
  | [] => None
  | y :: l' => if String.eqb x y then Some O
               else option_map S (list_index x l')
  end.

(** The conversion of one found group, on top of the fields so far. *)
Definition set_group (d : datetime) (g : ascii * string) : option datetime :=
  let '(name, text) := g in
  match name with
  | "Y"%char => n ← int_of_str text;
                Some (mkdatetime n (month d) (day d) (hour d) (minute d) (second d))
  | "m"%char => n ← int_of_str text;
                Some (mkdatetime (year d) n (day d) (hour d) (minute d) (second d))
  | "b"%char => i ← list_index (str_lower text) a_month;
                Some (mkdatetime (year d) (Z.of_nat i) (day d) (hour d) (minute d) (second d))
  | "d"%char => n ← int_of_str text;
                Some (mkdatetime (year d) (month d) n (hour d) (minute d) (second d))
  | "H"%char => n ← int_of_str text;
                Some (mkdatetime (year d) (month d) (day d) n (minute d) (second d))
  | "M"%char => n ← int_of_str text;
                Some (mkdatetime (year d) (month d) (day d) (hour d) n (second d))
  | "S"%char => n ← int_of_str text;
                Some (mkdatetime (year d) (month d) (day d) (hour d) (minute d) n)
  | _ => Some d
  end.

Fixpoint set_groups (d : datetime) (gs : list (ascii * string))
    : option datetime :=
  match gs with
  | [] => Some d
  | g :: gs' => d' ← set_group d g; set_groups d' gs'
  end.

(** [datetime.strptime(data_string, format)] *)
Definition strptime (data_string format : string) : option datetime :=
  ps ← compile_format format false;
  match match_pieces ps data_string with
  | [] => None
  | (gs, EmptyString) :: _ =>
      d ← set_groups (mkdatetime 1900 1 1 0 0 0) gs;
      if datetime_valid d then Some d else None
  | (_, String _ _) :: _ => None
  end.

Definition digit_char (n : Z) : ascii := ascii_of_N (48 + Z.to_N (n mod 10)).

(** Two and four zero-padded digits. *)
Definition pad2 (n : Z) : string :=
  String (digit_char (n / 10)) (String (digit_char n) EmptyString).

Definition pad4 (n : Z) : string :=
  String (digit_char (n / 1000)) (String (digit_char (n / 100)) (pad2 n)).

(** [d.strftime(format)] for the directives [%Y], [%m] and [%d]. The month
    and the day are written with two digits. The year is handed to the C
    library, which writes it as a plain decimal number: four digits from
    the year 1000 on, fewer below (999, not 0999). *)
Fixpoint strftime (d : datetime) (format : string) : string :=
  match format with
  | EmptyString => EmptyString
  | String "%" (String "Y" f) => str_of_int (year d) +:+ strftime d f
  | String "%" (String "m" f) => pad2 (month d) +:+ strftime d f
  | String "%" (String "d" f) => pad2 (day d) +:+ strftime d f
  | String c f => String c (strftime d f)
  end.

(** ** DateNormalizer: [timestamp_to_date] *)

Definition formats : list string :=
  ["%Y-%b-%d"; "%Y-%m-%d %H:%M:%S"; "%Y-%m-%d"].

(** The loop over [formats]: the first format that parses decides. *)
Fixpoint try_formats (fmts : list string) (timestamp_string : string)
    : string :=
  match fmts with
  | [] => timestamp_string
  | fmt :: rest =>
      match strptime timestamp_string fmt with
      | Some date_obj => strftime date_obj "%Y-%m-%d"
      | None => try_formats rest timestamp_string
      end
  end.

Definition preprocess (timestamp_string : string) : string :=
  strip (replace " CET" "" timestamp_string).

Definition timestamp_to_date (timestamp_string : string) : string :=
  try_formats formats (preprocess timestamp_string).

(** ** Dispatcher: [get_transformations] and [apply_transformation] *)

(** What a transformation hands back: a [str] or an [int]. *)
Inductive value : Type :=
| VStr (s : string)
| VInt (n : Z).

(** The registry, in the order of the dictionary literal. Each entry is
    the bound method, lifted to [M]. *)
Definition get_transformations : list (string * (string -> M value)) :=
  [("uuid_to_int",
    fun v => n ← on_self (uuid_to_sequential_int v); mret (VInt n));
   ("redact", fun v => r ← redact v; mret (VStr r));
   ("timestamp_to_date", fun v => mret (VStr (timestamp_to_date v)))].

(** [d.get(k)] on the registry. *)
Fixpoint registry_get {A} (k : string) (d : list (string * A)) : option A :=
  match d with
  | [] => None
  | (k', f) :: d' => if String.eqb k k' then Some f else registry_get k d'
  end.

(** [repr] of a list of plain strings: ['a', 'b']. *)
Fixpoint join (sep : string) (l : list string) : string :=
  match l with
  | [] => EmptyString
  | [x] => x
  | x :: l' => x +:+ sep +:+ join sep l'
  end.

Definition repr_str (s : string) : string := "'" +:+ s +:+ "'".

Definition repr_list (l : list string) : string :=
  "[" +:+ join ", " (map repr_str l) +:+ "]".

Definition unknown_transformation (transformation_type : string)
    (keys : list string) : exn :=
  ValueError ("Unknown transformation type: '" +:+ transformation_type
              +:+ "'. " +:+ "Available: " +:+ repr_list keys).

Definition apply_transformation (v : string)
    (transformation_type : option string) : M value :=
  match transformation_type with
  | None => mret (VStr v)
  | Some kind =>
      let transformations := get_transformations in
      match registry_get kind transformations with
      | None => raise (unknown_transformation kind (map fst transformations))
      | Some transformer_func => transformer_func v
      end
  end.

(** ** TableTransformEngine: [transform_csv]

    The two files are taken at the level of [csv.DictReader] and
    [csv.DictWriter]: the reader hands over the header ([input_columns])
    and one dictionary of strings per record; the writer receives the
    header to print and, per record, the list of cells along that header.
    A record that lacks a column makes [row[column]] fail. *)

(** [row[column]] *)
Definition getitem (row : gmap string string) (column : string) : M string :=
  match row !! column with
  | Some v => mret v
  | None => raise (KeyError column)
  end.

(** The inner loop: one pass over [input_columns], filling
    [transformed_row]. *)
Fixpoint transform_columns (transformations : gmap string string)
    (row : gmap string string) (columns : list string)
    (transformed_row : gmap string value) : M (gmap string value) :=
  match columns with
  | [] => mret transformed_row
  | column :: columns' =>
      let transformation_type := transformations !! column in
      v ← getitem row column;
      r ← apply_transformation v transformation_type;
      transform_columns transformations row columns'
                        (<[column := r]> transformed_row)
  end.

(** The outer loop: each record is transformed and appended to
    [transformed_rows]. *)
Fixpoint transform_rows (transformations : gmap string string)
    (input_columns : list string) (rows : list (gmap string string))
    (transformed_rows : list (gmap string value))
    : M (list (gmap string value)) :=
  match rows with
  | [] => mret transformed_rows
  | row :: rows' =>
      transformed_row ←
        transform_columns transformations row input_columns ∅;
      transform_rows transformations input_columns rows'
                     (transformed_rows ++ [transformed_row])
  end.

(** How the writer prints a cell. *)
Definition cell_text (v : value) : string :=
  match v with
  | VStr s => s
  | VInt n => str_of_int n
  end.

(** [DictWriter._dict_to_list]: a key outside [fieldnames] is refused, a
    field without a key is written empty. The message of the library goes
    on to list the offending keys. *)
Definition dict_to_list (fieldnames : list string)
    (rowdict : gmap string value) : outcome (list string) :=
  if decide (dom rowdict ⊆ list_to_set fieldnames)
  then Return (map (fun key => from_option cell_text "" (rowdict !! key))
                   fieldnames)
  else Raise (ValueError "dict contains fields not in fieldnames").

(** [DictWriter.writerows] *)
Fixpoint writerows (fieldnames : list string)
    (rowdicts : list (gmap string value)) : outcome (list (list string)) :=
  match rowdicts with
  | [] => Return []
  | rowdict :: rest =>
      match dict_to_list fieldnames rowdict with
      | Raise e => Raise e
      | Return cells =>
          match writerows fieldnames rest with
          | Raise e => Raise e
          | Return records => Return (cells :: records)
          end
      end
  end.

(** The output file: the header line and the records below it. *)
Record csv_table : Type := mkcsv_table {
  header : list string;
  records : list (list string)
}.

(** Truthiness of an optional list: [None] and [[]] are false. *)
Definition truthy {A} (l : option (list A)) : bool :=
  match l with
  | Some (_ :: _) => true
  | _ => false
  end.

Definition transform_csv (input_columns : list string)
    (rows : list (gmap string string))
    (transformations : option (gmap string string))
    (column_order : option (list string)) : M csv_table :=
  let transformations := default ∅ transformations in
  transformed_rows ← transform_rows transformations input_columns rows [];
  let output_columns :=
    if truthy column_order then default [] column_order else input_columns in
  match writerows output_columns transformed_rows with
  | Raise e => raise e
  | Return records => mret (mkcsv_table output_columns records)
  end.

(** ** Specification-level notions *)

(** The mapper agrees with a duplicate-free list of the identifiers seen:
    the identifier at position [k] holds the integer [k + 1], and the
    counter is one past the last integer handed out. *)
Definition mapper_inv (t : CSVTransformer) (seen : list string) : Prop :=
  NoDup seen
  /\ next_id t = Z.of_nat (length seen) + 1
  /\ forall u n, uuid_to_int_map t !! u = Some n
                <-> exists k, seen !! k = Some u /\ n = Z.of_nat k + 1.

(** The keys of the registry: the recognized kinds. *)
Definition recognized_kinds : list string := map fst get_transformations.

(** Every character of [s] satisfies [p]. *)
Fixpoint str_forall (p : ascii -> bool) (s : string) : bool :=
  match s with
  | EmptyString => true
  | String c s' => p c && str_forall p s'
  end.

(** A lowercase letter, a to z. *)
Definition is_ascii_lower (c : ascii) : bool :=
  let n := N_of_ascii c in ((97 <=? n) && (n <=? 122))%N.

(** The preprocessing as the specification words it, for comparison with
    [preprocess]: only a " CET" that ends the string is taken off, then the
    surrounding white space. *)
Fixpoint remove_suffix (suffix s : string) : string :=
  if String.eqb s suffix then EmptyString
  else match s with
       | EmptyString => EmptyString
       | String c s' => String c (remove_suffix suffix s')
       end.

Definition preprocess_trailing_only (timestamp_string : string) : string :=
  strip (remove_suffix " CET" timestamp_string).

(** The canonical shape: four digits, a dash, two digits, a dash, two
    digits. *)
Definition is_canonical_date (s : string) : bool :=
  match s with
  | String y1 (String y2 (String y3 (String y4 (String "-"
      (String m1 (String m2 (String "-"
        (String d1 (String d2 EmptyString))))))))) =>
      forallb is_digit [y1; y2; y3; y4; m1; m2; d1; d2]
  | _ => false
  end.

(** The cells of one record, laid out along [fieldnames]. *)
Definition project (fieldnames : list string) (rowdict : gmap string value)
    : list string :=
  map (fun key => from_option cell_text "" (rowdict !! key)) fieldnames.

(** The configuration names recognized kinds only. *)
Definition kinds_recognized (transformations : gmap string string)
    (columns : list string) : Prop :=
  forall c kind, c ∈ columns -> transformations !! c = Some kind ->
                 kind ∈ recognized_kinds.

(** Every record has a value for every input column. *)
Definition rows_complete (columns : list string)
    (rows : list (gmap string string)) : Prop :=
  forall row c, row ∈ rows -> c ∈ columns -> is_Some (row !! c).

(** ** The console and [interactive_mode]

    The prompt works on the terminal: [input] writes its prompt and takes
    the next line typed, [print] writes a line. The console is the lines
    still to be typed and the chunks written so far. Clearing the screen
    leaves no trace here; the header of the input file arrives as
    [columns]. *)

Record Console : Type := mkConsole {
  stdin : list string;
  stdout : list string
}.

Inductive io_exn : Type :=
| EOFError
| Uncaught (e : exn).

Inductive io_outcome (A : Type) : Type :=
| IOReturn (a : A)
| IORaise (e : io_exn).
Arguments IOReturn {A} a.
Arguments IORaise {A} e.

Definition IO (A : Type) : Type := Console -> io_outcome A * Console.

Definition io_ret {A} (a : A) : IO A := fun c => (IOReturn a, c).

Definition io_bind {A B} (m : IO A) (k : A -> IO B) : IO B :=
  fun c =>
    match m c with
    | (IOReturn a, c') => k a c'
    | (IORaise e, c') => (IORaise e, c')
    end.

Global Instance IO_ret : MRet IO := @io_ret.
Global Instance IO_bind : MBind IO := fun A B k m => io_bind m k.

Definition newline : string := String (ascii_of_N 10) EmptyString.

(** [print(text)] *)
Definition print (text : string) : IO unit :=
  fun c => (IOReturn tt, mkConsole (stdin c) (stdout c ++ [text +:+ newline])).

(** [input(prompt)]: at the end of the input it raises [EOFError]. *)
Definition input (prompt : string) : IO string :=
  fun c =>
    match stdin c with
    | [] => (IORaise EOFError, mkConsole [] (stdout c ++ [prompt]))
    | line :: rest => (IOReturn line, mkConsole rest (stdout c ++ [prompt]))
    end.

(** [c.isdigit()] for one code point below 256: the decimal digits and
    the superscripts one, two and three. *)
Definition isdigit_char (c : ascii) : bool :=
  let n := N_of_ascii c in
  ((48 <=? n) && (n <=? 57) || (n =? 178) || (n =? 179) || (n =? 185))%N.

(** [s.isdigit()] *)
Definition isdigit (s : string) : bool :=
  match s with
  | EmptyString => false
  | _ => str_forall isdigit_char s
  end.

(** [int(s)] on a string that passed [isdigit]: a superscript is no
    decimal digit and is refused, and so is a numeral longer than the
    interpreter's cap of 4300 digits. [None] is the [ValueError]. *)
Definition int_of_digits (s : string) : option Z :=
  if (4300 <? String.length s)%nat then None else digits_value s 0.

(** [c.lower()] for one code point below 256. *)
Definition lower_char (c : ascii) : ascii :=
  let n := N_of_ascii c in
  if ((65 <=? n) && (n <=? 90) || (192 <=? n) && (n <=? 214)
      || (216 <=? n) && (n <=? 222))%N
  then ascii_of_N (n + 32) else c.

(** [s.lower()] *)
Fixpoint lower (s : string) : string :=
  match s with
  | EmptyString => EmptyString
  | String c s' => String (lower_char c) (lower s')
  end.

(** The [while True] loop for one column. Each round takes one line, so
    the loop is a recursion on the lines still to be typed. The message
    of the [ValueError] of [int] is cut short: the library goes on to name
    the literal, or the digit limit. *)
Fixpoint choose_transformation (column : string)
    (transformations_list : list string)
    (transformation_config : gmap string string)
    (lines : list string) (written : list string)
    : io_outcome (gmap string string) * Console :=
  let prompt :=
    "Transform '" +:+ column +:+ "' with (0-"
    +:+ str_of_int (Z.of_nat (length transformations_list)) +:+ "): " in
  match lines with
  | [] => (IORaise EOFError, mkConsole [] (written ++ [prompt]))
  | line :: lines' =>
      let written1 := written ++ [prompt] in
      let choice := strip line in
      if negb (isdigit choice)
      then choose_transformation column transformations_list
             transformation_config lines'
             (written1 ++ ["  Please enter a number" +:+ newline])
      else
        match int_of_digits choice with
        | None =>
            (IORaise (Uncaught (ValueError "invalid literal for int()")),
             mkConsole lines' written1)
        | Some choice_num =>
            if choice_num =? 0
            then (IOReturn transformation_config, mkConsole lines' written1)
            else if (1 <=? choice_num)
                    && (choice_num <=? Z.of_nat (length transformations_list))
            then
              match transformations_list !! Z.to_nat (choice_num - 1) with
              | Some kind =>
                  (IOReturn (<[column := kind]> transformation_config),
                   mkConsole lines' written1)
              | None =>
                  (IORaise (Uncaught (IndexError "list index out of range")),
                   mkConsole lines' written1)
              end
            else choose_transformation column transformations_list
                   transformation_config lines'
                   (written1
                    ++ ["  Please enter a number between 0 and "
                        +:+ str_of_int (Z.of_nat (length transformations_list))
                        +:+ newline])
        end
  end.

(** The [for column in columns] loop. *)
Fixpoint choose_all (columns : list string)
    (transformations_list : list string)
    (transformation_config : gmap string string)
    : IO (gmap string string) :=
  match columns with
  | [] => mret transformation_config
  | column :: columns' =>
      transformation_config' ←
        (fun c => choose_transformation column transformations_list
                    transformation_config (stdin c) (stdout c));
      choose_all columns' transformations_list transformation_config'
  end.

(** The listing of the available transformations, numbered from [i]. *)
Fixpoint print_transformations (i : Z) (transformations_list : list string)
    : IO unit :=
  match transformations_list with
  | [] => mret tt
  | trans :: rest =>
      _ ← print ("  [" +:+ str_of_int i +:+ "] " +:+ trans);
      print_transformations (i + 1) rest
  end.

Definition interactive_mode (columns : list string)
    : IO (gmap string string * option (list string)) :=
  _ ← print ("CSV Transformer" +:+ newline);
  _ ← print ("Detected columns: " +:+ join ", " columns);
  let transformations_list := map fst get_transformations in
  _ ← print (newline +:+ "Available transformations:");
  _ ← print_transformations 1 transformations_list;
  _ ← print "  [0] No transformation";
  transformation_config ← choose_all columns transformations_list ∅;
  answer ← input (newline +:+ "Reorder columns? (y/n): ");
  let reorder := lower (strip answer) in
  if String.eqb reorder "y"
  then
    _ ← print ("Current order: " +:+ join ", " columns);
    answer' ← input "Enter desired order (comma-separated): ";
    let order_input := strip answer' in
    let column_order := map strip (split_on "," order_input) in
    mret (transformation_config, Some column_order)
  else mret (transformation_config, None).

(** [main], once the arguments are parsed: [columns] and [rows] are what
    the input file holds, [output] is the path given for the result, and
    [tape] is the state of [random]. A fresh transformer is configured at
    the prompt and run over the file. *)
Definition main (output : string) (columns : list string)
    (rows : list (gmap string string)) (tape : list N) : IO csv_table :=
  '(transformations, column_order) ← interactive_mode columns;
  match transform_csv columns rows (Some transformations) column_order
          (mkWorld new_transformer tape) with
  | (Raise e, _) => fun c => (IORaise (Uncaught e), c)
  | (Return tbl, _) =>
      _ ← print (newline +:+ "Output saved to: " +:+ output);
      mret tbl
  end.

(** Every identifier stored in [t] is stored in [t'] with the same
    integer. *)
Definition keeps_entries (t t' : CSVTransformer) : Prop :=
  forall u n, uuid_to_int_map t !! u = Some n ->
              uuid_to_int_map t' !! u = Some n.

(** No white space at either end. *)
Definition starts_with_space (s : string) : bool :=
  match s with
  | EmptyString => false
  | String c _ => is_space c
  end.

Fixpoint ends_with_space (s : string) : bool :=
  match s with
  | EmptyString => false
  | String c EmptyString => is_space c
  | String _ s' => ends_with_space s'
  end.

(** The order in which the writer lays out the columns. *)
Definition output_order (column_order : option (list string))
    (input_columns : list string) : list string :=
  match column_order with
  | Some (c :: cs) => c :: cs
  | _ => input_columns
  end.

(** The transformer is in a state that some sequence of distinct
    identifiers explains. *)
Definition mapper_consistent (t : CSVTransformer) : Prop :=
  exists seen, mapper_inv t seen.

(** An answer that the prompt passes over: no number, or a number past
    the last choice. *)
Definition skipped_answer (transformations_list : list string)
    (line : string) : Prop :=
  isdigit (strip line) = false
  \/ exists k, int_of_digits (strip line) = Some k
               /\ Z.of_nat (length transformations_list) < k.

(** An answer that stands for the number 0. *)
Definition zero_answer (line : string) : Prop :=
  isdigit (strip line) = true /\ int_of_digits (strip line) = Some 0.

(** Two records agree on every input column, except that under a column
    configured as redact the values need only agree on whether they
    contain "@". *)
Definition same_up_to_redacted (transformations : gmap string string)
    (columns : list string) (row row' : gmap string string) : Prop :=
  forall c, c ∈ columns ->
    if decide (transformations !! c = Some "redact")
    then match row !! c, row' !! c with
         | Some v, Some v' => str_contains "@" v = str_contains "@" v'
         | None, None => True
         | _, _ => False
         end
    else row !! c = row' !! c.

(** The match that the backtracking matcher finds first, if any. *)
Definition first_match (ps : list piece) (s : string)
    : option (list (ascii * string) * string) :=
  head (match_pieces ps s).

(** The same for a format given as text. *)
Definition first_match_format (format s : string)
    : option (list (ascii * string) * string) :=
  ps ← compile_format format false; first_match ps s.

(** What follows the year in a canonical date. *)
Definition date_tail (m d : Z) : string :=
  "-" +:+ pad2 m +:+ "-" +:+ pad2 d.

(** No character of the string is white space. *)
Definition no_space (s : string) : bool :=
  str_forall (fun c => negb (is_space c)) s.

(** [c] is the only column configured as uuid_to_int among [columns]. *)
Definition only_identifier_column (transformations : gmap string string)
    (c : string) (columns : list string) : Prop :=
  forall c', c' ∈ columns ->
    (transformations !! c' = Some "uuid_to_int" <-> c' = c).

(** What the text of a year has to satisfy: no white space; four padded
    digits from 1000 on, at most three characters below. *)
Definition year_text_ok (y : Z) : bool :=
  no_space (str_of_int y)
  && (if 1000 <=? y then String.eqb (str_of_int y) (pad4 y)
      else (String.length (str_of_int y) <=? 3)%nat).

(** * Theorems *)

(** ** IdentifierMapper *)

Lemma mapper_inv_new : mapper_inv new_transformer [].
Proof.
  split; [constructor|]. split; [reflexivity|].
  intros u n. cbn. rewrite lookup_empty. split; [discriminate|].
  intros (k & Hk & _). rewrite lookup_nil in Hk. discriminate.
Qed.

Lemma see_prefix seen u : seen `prefix_of` see seen u.
Proof.
  unfold see. case_decide; [reflexivity|]. by apply prefix_app_r.
Qed.

Lemma first_seen_from_prefix ids : forall seen,
  seen `prefix_of` first_seen_from seen ids.
Proof.
  induction ids as [|u ids IH]; intros seen; cbn; [reflexivity|].
  etrans; [apply see_prefix | apply IH].
Qed.

Lemma first_seen_from_snoc seen ids u :
  first_seen_from seen (ids ++ [u]) = see (first_seen_from seen ids) u.
Proof. unfold first_seen_from. by rewrite fold_left_app. Qed.

Lemma uuid_to_sequential_int_seen t u n :
  uuid_to_int_map t !! u = Some n -> uuid_to_sequential_int u t = (n, t).
Proof. intros H. unfold uuid_to_sequential_int. by rewrite H. Qed.

Lemma uuid_to_sequential_int_step t seen u :
  mapper_inv t seen ->
  mapper_inv (uuid_to_sequential_int u t).2 (see seen u)
  /\ exists k, see seen u !! k = Some u
            /\ (uuid_to_sequential_int u t).1 = Z.of_nat k + 1.
Proof.
  intros (Hnd & Hnext & Hmap).
  unfold uuid_to_sequential_int, see.
  destruct (uuid_to_int_map t !! u) as [n|] eqn:Hu; cbn.
  - apply Hmap in Hu as Hk. destruct Hk as (k & Hk & ->).
    rewrite decide_True by (eapply list_elem_of_lookup_2; eauto).
    split; [exact (conj Hnd (conj Hnext Hmap))|]. eauto.
  - assert (u ∉ seen) as Hnotin.
    { intros Hin. apply list_elem_of_lookup_1 in Hin as [k Hk].
      assert (uuid_to_int_map t !! u = Some (Z.of_nat k + 1)) as E
        by (apply Hmap; eauto).
      congruence. }
    rewrite decide_False by done.
    rewrite lookup_total_insert_eq.
    split.
    + split; [|split].
      * apply NoDup_app. repeat split; [done| |apply NoDup_singleton].
        intros x Hx Hx'. apply list_elem_of_singleton in Hx'. by subst.
      * rewrite length_app. cbn. lia.
      * intros v n. cbn. rewrite lookup_insert. case_decide as Huv.
        -- subst v. split.
           ++ intros [= <-]. exists (length seen). split; [|lia].
              rewrite lookup_app_r by lia. by rewrite Nat.sub_diag.
           ++ intros (k & Hk & ->). f_equal.
              apply lookup_app_Some in Hk as [Hk|[Hlen Hk]].
              ** exfalso. apply Hnotin. eapply list_elem_of_lookup_2; eauto.
              ** apply list_lookup_singleton_Some in Hk as [Hk _]. lia.
        -- rewrite Hmap. split; intros (k & Hk & ->); exists k; (split; [|done]).
           ++ by apply lookup_app_l_Some.
           ++ apply lookup_app_Some in Hk as [Hk|[_ Hk]]; [done|].
              apply list_lookup_singleton_Some in Hk as [_ ?]. congruence.
    + exists (length seen). split; [|lia].
      rewrite lookup_app_r by lia. by rewrite Nat.sub_diag.
Qed.

Lemma map_calls_spec ids : forall t seen,
  mapper_inv t seen ->
  mapper_inv (map_calls ids t).2 (first_seen_from seen ids)
  /\ length (map_calls ids t).1 = length ids
  /\ forall i u, ids !! i = Some u ->
       exists k, first_seen_from seen ids !! k = Some u
                 /\ (map_calls ids t).1 !! i = Some (Z.of_nat k + 1).
Proof.
  induction ids as [|u ids IH]; intros t seen Hinv; cbn.
  - split; [done|]. split; [done|]. intros i v Hi.
    rewrite lookup_nil in Hi. discriminate.
  - destruct (uuid_to_sequential_int_step t seen u Hinv) as (Hinv1 & k & Hk & Hn).
    destruct (uuid_to_sequential_int u t) as [n t1] eqn:E1. cbn in *.
    destruct (IH t1 (see seen u) Hinv1) as (Hinv2 & Hlen & Hres).
    destruct (map_calls ids t1) as [ns t2] eqn:E2. cbn in *.
    split; [done|]. split; [by rewrite Hlen|].
    intros [|i] v Hi; cbn in *.
    + injection Hi as <-. exists k. split; [|by rewrite Hn].
      eapply prefix_lookup_Some; [exact Hk|]. apply first_seen_from_prefix.
    + by apply Hres.
Qed.

Lemma first_seen_from_elem ids : forall seen u,
  u ∈ first_seen_from seen ids <-> u ∈ seen \/ u ∈ ids.
Proof.
  induction ids as [|v ids IH]; intros seen u.
  - cbn. rewrite elem_of_nil. tauto.
  - change (first_seen_from seen (v :: ids))
      with (first_seen_from (see seen v) ids).
    rewrite IH, elem_of_cons. unfold see. case_decide as Hv.
    + split; [tauto|]. intros [?|[->|?]]; tauto.
    + rewrite elem_of_app, list_elem_of_singleton. tauto.
Qed.

Lemma first_seen_elem ids u : u ∈ first_seen ids <-> u ∈ ids.
Proof.
  unfold first_seen. rewrite first_seen_from_elem, elem_of_nil. tauto.
Qed.

Lemma first_seen_NoDup ids : NoDup (first_seen ids).
Proof.
  pose proof (map_calls_spec ids new_transformer [] mapper_inv_new) as H.
  apply H.
Qed.

(** The place of an identifier in [first_seen] is the number of distinct
    identifiers met before its first occurrence. *)
Lemma first_seen_rank ids j u :
  ids !! j = Some u -> u ∉ take j ids ->
  first_seen ids !! length (first_seen (take j ids)) = Some u.
Proof.
  intros Hj Hnew.
  assert (first_seen (take (S j) ids) = first_seen (take j ids) ++ [u]) as E.
  { erewrite take_S_r by exact Hj. unfold first_seen.
    rewrite first_seen_from_snoc. unfold see.
    rewrite decide_False; [done|]. by rewrite first_seen_from_elem, elem_of_nil; tauto. }
  eapply prefix_lookup_Some with (l1 := first_seen (take (S j) ids)).
  - rewrite E, lookup_app_r by lia. by rewrite Nat.sub_diag.
  - rewrite <- (take_drop (S j) ids) at 2. unfold first_seen, first_seen_from.
    rewrite fold_left_app. apply first_seen_from_prefix.
Qed.

(** C1. On a fresh transformer, any sequence of calls to
    [uuid_to_sequential_int] numbers the distinct identifiers 1, 2, 3, ...
    in first-seen order: the call on an identifier returns one more than
    its position in the duplicate-free first-seen list; the first call
    returns 1; equal identifiers get equal integers; distinct identifiers
    never share one; the counter ends one past the number of distinct
    identifiers; and a call on an identifier already in the map returns
    the stored integer and leaves the transformer as it was. *)
Theorem uuid_to_sequential_int_first_seen_order :
  forall ids : list string,
    length (map_calls ids new_transformer).1 = length ids
    /\ NoDup (first_seen ids)
    /\ (forall u, u ∈ first_seen ids <-> u ∈ ids)
    /\ (forall j u, ids !! j = Some u -> u ∉ take j ids ->
          first_seen ids !! length (first_seen (take j ids)) = Some u)
    /\ (forall i u, ids !! i = Some u ->
          exists k, first_seen ids !! k = Some u
                    /\ (map_calls ids new_transformer).1 !! i
                       = Some (Z.of_nat k + 1))
    /\ (forall u rest, ids = u :: rest ->
          (map_calls ids new_transformer).1 !! 0%nat = Some 1)
    /\ (forall i j u, ids !! i = Some u -> ids !! j = Some u ->
          (map_calls ids new_transformer).1 !! i
          = (map_calls ids new_transformer).1 !! j)
    /\ (forall i j u v n, ids !! i = Some u -> ids !! j = Some v ->
          (map_calls ids new_transformer).1 !! i = Some n ->
          (map_calls ids new_transformer).1 !! j = Some n -> u = v)
    /\ next_id (map_calls ids new_transformer).2
       = Z.of_nat (length (first_seen ids)) + 1
    /\ (forall t u n, uuid_to_int_map t !! u = Some n ->
          uuid_to_sequential_int u t = (n, t)).
Proof.
  intros ids.
  destruct (map_calls_spec ids new_transformer [] mapper_inv_new)
    as ((Hnd & Hnext & Hmap) & Hlen & Hres).
  fold (first_seen ids) in *.
  assert (forall i u k, ids !! i = Some u -> first_seen ids !! k = Some u ->
            (map_calls ids new_transformer).1 !! i = Some (Z.of_nat k + 1))
    as Hat.
  { intros i u k Hi Hk. destruct (Hres i u Hi) as (k' & Hk' & ->).
    by rewrite (NoDup_lookup _ _ _ _ Hnd Hk Hk'). }
  split; [done|]. split; [done|].
  split; [apply first_seen_elem|].
  split; [apply first_seen_rank|].
  split; [done|].
  split.
  { intros u rest ->. apply (Hat 0%nat u 0%nat); [done|].
    apply (first_seen_rank (u :: rest) 0 u); [done|]. cbn. apply not_elem_of_nil. }
  split.
  { intros i j u Hi Hj. destruct (Hres i u Hi) as (k & Hk & ->).
    symmetry. by apply (Hat j u k). }
  split.
  { intros i j u v n Hi Hj Hni Hnj.
    destruct (Hres i u Hi) as (k & Hk & Ek).
    destruct (Hres j v Hj) as (k' & Hk' & Ek').
    assert (k = k') as -> by (rewrite Hni in Ek; rewrite Hnj in Ek'; simplify_eq; lia).
    congruence. }
  split; [done|].
  apply uuid_to_sequential_int_seen.
Qed.

Example uuid_to_sequential_int_basic :
  (map_calls ["EFEABEA5-981B-4E45-8F13-425C456BF7F6";
              "CDD3AA5D-F8BF-40BB-B220-36147E1B75F7";
              "EFEABEA5-981B-4E45-8F13-425C456BF7F6";
              "2AB96C22-181C-42DC-8B11-3EDAA281D4F8";
              "CDD3AA5D-F8BF-40BB-B220-36147E1B75F7"] new_transformer).1
  = [1; 2; 1; 3; 2].
Proof. vm_compute. reflexivity. Qed.

(** ** Dispatcher *)

Lemma registry_get_unknown kind :
  kind ∉ recognized_kinds -> registry_get kind get_transformations = None.
Proof.
  intros Hk. cbn.
  repeat match goal with
  | |- context [String.eqb kind ?k] =>
      destruct (String.eqb_spec kind k) as [->|_];
      [exfalso; apply Hk; unfold recognized_kinds; cbn; set_solver|]
  end.
  reflexivity.
Qed.

Lemma apply_transformation_unknown kind v w :
  kind ∉ recognized_kinds ->
  apply_transformation v (Some kind) w
  = (Raise (unknown_transformation kind recognized_kinds), w).
Proof.
  intros Hk. unfold apply_transformation.
  by rewrite (registry_get_unknown kind Hk).
Qed.

(** C2. [apply_transformation] returns the value untouched when no kind is
    given; runs the identifier mapper, the redactor or the date normaliser
    for the three recognized kinds; and for every other kind raises a
    [ValueError] whose message quotes the kind and lists the three
    recognized kinds. *)
Theorem apply_transformation_dispatch :
  (forall v w, apply_transformation v None w = (Return (VStr v), w))
  /\ (forall v w,
        apply_transformation v (Some "uuid_to_int") w
        = (Return (VInt (uuid_to_sequential_int v (self w)).1),
           mkWorld (uuid_to_sequential_int v (self w)).2 (rng w)))
  /\ (forall v w,
        apply_transformation v (Some "redact") w
        = (r ← redact v; mret (VStr r)) w)
  /\ (forall v w,
        apply_transformation v (Some "timestamp_to_date") w
        = (Return (VStr (timestamp_to_date v)), w))
  /\ (forall kind v w,
        kind <> "uuid_to_int" -> kind <> "redact" ->
        kind <> "timestamp_to_date" ->
        apply_transformation v (Some kind) w
        = (Raise (ValueError
                    ("Unknown transformation type: '" +:+ kind +:+
                     "'. Available: ['uuid_to_int', 'redact', 'timestamp_to_date']")),
           w)).
Proof.
  split; [reflexivity|].
  split.
  { intros v w. cbn. unfold mbind, M_bind, bind, on_self.
    by destruct (uuid_to_sequential_int v (self w)). }
  split; [reflexivity|].
  split; [reflexivity|].
  intros kind v w H1 H2 H3.
  rewrite apply_transformation_unknown.
  - reflexivity.
  - unfold recognized_kinds. cbn. intros Hin.
    repeat (apply elem_of_cons in Hin as [Hin|Hin]; [congruence|]).
    by apply elem_of_nil in Hin.
Qed.

Lemma apply_transformation_dispatch_witness :
  apply_transformation "x" (Some "bogus_kind") (mkWorld new_transformer [])
  = (Raise (ValueError
              "Unknown transformation type: 'bogus_kind'. Available: ['uuid_to_int', 'redact', 'timestamp_to_date']"),
     mkWorld new_transformer []).
Proof.
  apply (proj2 (proj2 (proj2 (proj2 apply_transformation_dispatch)))
           "bogus_kind" "x" (mkWorld new_transformer []));
    discriminate.
Defined.

Example apply_transformation_first_uuid :
  (apply_transformation "EFEABEA5-981B-4E45-8F13-425C456BF7F6"
     (Some "uuid_to_int") (mkWorld new_transformer [])).1
  = Return (VInt 1).
Proof. vm_compute. reflexivity. Qed.

(** C9. An unrecognized kind makes [apply_transformation] raise with the
    world exactly as it was: the identifier map and the counter (and the
    generator) are untouched. *)
Theorem apply_transformation_unknown_keeps_state :
  forall kind v w,
    kind ∉ recognized_kinds ->
    (exists msg, (apply_transformation v (Some kind) w).1
                 = Raise (ValueError msg))
    /\ (apply_transformation v (Some kind) w).2 = w
    /\ uuid_to_int_map (self (apply_transformation v (Some kind) w).2)
       = uuid_to_int_map (self w)
    /\ next_id (self (apply_transformation v (Some kind) w).2)
       = next_id (self w).
Proof.
  intros kind v w Hk. rewrite (apply_transformation_unknown kind v w Hk).
  cbn. eauto.
Qed.

Lemma apply_transformation_unknown_keeps_state_witness :
  ("unknown_transform" ∉ recognized_kinds)
  /\ (apply_transformation "value" (Some "unknown_transform")
        (mkWorld (uuid_to_sequential_int "u-1" new_transformer).2 [4%N])).2
     = mkWorld (uuid_to_sequential_int "u-1" new_transformer).2 [4%N].
Proof.
  assert ("unknown_transform" ∉ recognized_kinds) as H.
  { unfold recognized_kinds. cbn. intros Hin.
    repeat (apply elem_of_cons in Hin as [Hin|Hin]; [discriminate|]).
    by apply elem_of_nil in Hin. }
  split; [exact H|].
  exact (proj1 (proj2 (apply_transformation_unknown_keeps_state
                         "unknown_transform" "value" _ H))).
Defined.

(** ** Strings *)

Lemma app_cons c s t : String c s +:+ t = String c (s +:+ t).
Proof. reflexivity. Qed.

Lemma app_empty t : EmptyString +:+ t = t.
Proof. reflexivity. Qed.

Lemma count_char_app c s t :
  count_char c (s +:+ t) = (count_char c s + count_char c t)%nat.
Proof.
  induction s as [|d s IH]; [reflexivity|].
  rewrite app_cons. cbn [count_char]. rewrite IH. lia.
Qed.

Lemma split_on_absent sep s :
  count_char sep s = O -> split_on sep s = [s].
Proof.
  induction s as [|c s IH]; [reflexivity|]. cbn [count_char split_on].
  destruct (Ascii.eqb c sep); [discriminate|]. intros H.
  by rewrite IH.
Qed.

Lemma split_on_app sep s t :
  count_char sep s = O ->
  split_on sep (s +:+ String sep t) = s :: split_on sep t.
Proof.
  induction s as [|c s IH].
  - intros _. rewrite app_empty. cbn [split_on]. by rewrite Ascii.eqb_refl.
  - cbn [count_char]. rewrite app_cons. cbn [split_on].
    destruct (Ascii.eqb c sep); [discriminate|]. intros H.
    by rewrite IH.
Qed.

Lemma str_forall_count p c s :
  p c = false -> str_forall p s = true -> count_char c s = O.
Proof.
  intros Hc. induction s as [|d s IH]; [reflexivity|].
  cbn [str_forall count_char]. intros [Hd Hs]%andb_prop.
  destruct (Ascii.eqb_spec d c) as [->|_]; [congruence|]. by rewrite IH.
Qed.

Lemma str_forall_of_list p l :
  Forall (fun c => p c = true) l ->
  str_forall p (string_of_list_ascii l) = true.
Proof.
  induction 1 as [|c l Hc _ IH]; [reflexivity|].
  cbn. by rewrite Hc, IH.
Qed.

Lemma length_app_string s t :
  String.length (s +:+ t) = (String.length s + String.length t)%nat.
Proof.
  induction s as [|c s IH]; [reflexivity|].
  rewrite app_cons. cbn [String.length]. by rewrite IH.
Qed.

Lemma length_string_of_list l :
  String.length (string_of_list_ascii l) = length l.
Proof. induction l as [|c l IH]; [reflexivity|]. cbn. by rewrite IH. Qed.

(** ** The generator *)

Lemma randbelow_spec n w :
  (0 < n)%N ->
  exists i w', randbelow n w = (Return i, w')
               /\ (i < n)%N /\ self w' = self w.
Proof.
  intros Hn. unfold randbelow. destruct (rng w) as [|x tape].
  - exists 0%N, w. by repeat split.
  - eexists _, _. split; [reflexivity|]. split; [|reflexivity].
    apply N.mod_lt. lia.
Qed.

Lemma choice_spec {A} (seq : list A) w :
  seq <> [] ->
  exists x w', choice seq w = (Return x, w')
               /\ x ∈ seq /\ self w' = self w.
Proof.
  intros Hne.
  destruct (randbelow_spec (N.of_nat (length seq)) w) as (i & w' & E & Hi & Hs).
  { destruct seq; [done|]. cbn [length]. lia. }
  destruct (lookup_lt_is_Some_2 seq (N.to_nat i)) as [x Hx]; [lia|].
  exists x, w'. unfold choice, mbind, M_bind, bind. rewrite E, Hx.
  split; [reflexivity|]. split; [|done].
  eapply list_elem_of_lookup_2; eauto.
Qed.

Lemma choices_spec {A} (population : list A) k : forall w,
  population <> [] ->
  exists xs w', choices population k w = (Return xs, w')
                /\ length xs = k /\ Forall (fun x => x ∈ population) xs
                /\ self w' = self w.
Proof.
  induction k as [|k IH]; intros w Hne.
  - exists [], w. by repeat split.
  - destruct (choice_spec population w Hne) as (x & w1 & E1 & Hx & Hs1).
    destruct (IH w1 Hne) as (xs & w2 & E2 & Hlen & Hall & Hs2).
    exists (x :: xs), w2. cbn [choices]. unfold mbind, M_bind, bind.
    rewrite E1, E2. split; [reflexivity|]. split; [by cbn; rewrite Hlen|].
    split; [by constructor|congruence].
Qed.

Lemma randint_spec a b w :
  a <= b ->
  exists n w', randint a b w = (Return n, w')
               /\ a <= n <= b /\ self w' = self w.
Proof.
  intros Hab.
  destruct (randbelow_spec (Z.to_N (b - a + 1)) w) as (i & w' & E & Hi & Hs);
    [lia|].
  exists (a + Z.of_N i), w'. unfold randint, mbind, M_bind, bind. rewrite E.
  split; [reflexivity|]. split; [lia|done].
Qed.

(** ** Redactor *)

Lemma pool_forall (p : string -> bool) (pool : list string) x :
  forallb p pool = true -> x ∈ pool -> p x = true.
Proof.
  intros H Hx. apply list_elem_of_In in Hx.
  by apply (proj1 (forallb_forall p pool) H).
Qed.

Lemma EMAIL_DOMAINS_shape d :
  d ∈ EMAIL_DOMAINS ->
  count_char "@" d = O /\ str_contains "." d = true /\ d <> EmptyString.
Proof.
  intros Hd.
  pose proof (pool_forall
    (fun d => Nat.eqb (count_char "@" d) 0 && str_contains "." d
              && negb (String.eqb d EmptyString))
    EMAIL_DOMAINS d eq_refl Hd) as H.
  cbn beta in H. apply andb_prop in H as [[H1 H2]%andb_prop H3].
  apply Nat.eqb_eq in H1. apply negb_true_iff, String.eqb_neq in H3. done.
Qed.

Lemma name_pool_shape pool n :
  forallb (fun n => Nat.eqb (count_char " " n) 0
                    && Nat.eqb (count_char "@" n) 0
                    && negb (String.eqb n EmptyString)) pool = true ->
  n ∈ pool ->
  count_char " " n = O /\ count_char "@" n = O /\ n <> EmptyString.
Proof.
  intros Hpool Hn. pose proof (pool_forall _ pool n Hpool Hn) as H.
  cbn beta in H. apply andb_prop in H as [[H1 H2]%andb_prop H3].
  apply Nat.eqb_eq in H1, H2. apply negb_true_iff, String.eqb_neq in H3. done.
Qed.

Lemma ascii_lowercase_lower c :
  c ∈ ascii_lowercase -> is_ascii_lower c = true.
Proof.
  intros Hc. apply list_elem_of_In in Hc.
  by apply (proj1 (forallb_forall is_ascii_lower ascii_lowercase) eq_refl).
Qed.

Lemma redact_email_spec email w :
  exists local_part domain w',
    redact_email email w = (Return (local_part +:+ "@" +:+ domain), w')
    /\ (5 <= String.length local_part <= 10)%nat
    /\ str_forall is_ascii_lower local_part = true
    /\ domain ∈ EMAIL_DOMAINS
    /\ self w' = self w.
Proof.
  destruct (randint_spec 5 10 w) as (n & w1 & E1 & Hn & Hs1); [lia|].
  destruct (choices_spec ascii_lowercase (Z.to_nat n) w1)
    as (cs & w2 & E2 & Hlen & Hcs & Hs2); [discriminate|].
  destruct (choice_spec EMAIL_DOMAINS w2) as (d & w3 & E3 & Hd & Hs3);
    [discriminate|].
  exists (string_of_list_ascii cs), d, w3.
  unfold redact_email, mbind, M_bind, bind. rewrite E1, E2, E3.
  split; [reflexivity|]. rewrite length_string_of_list, Hlen.
  split; [lia|]. split; [|split; [done|congruence]].
  apply str_forall_of_list. eapply Forall_impl; [exact Hcs|].
  apply ascii_lowercase_lower.
Qed.

Lemma redact_name_spec name w :
  exists first_name last_name w',
    redact_name name w = (Return (first_name +:+ " " +:+ last_name), w')
    /\ first_name ∈ FIRST_NAMES
    /\ last_name ∈ LAST_NAMES
    /\ self w' = self w.
Proof.
  destruct (choice_spec FIRST_NAMES w) as (f & w1 & E1 & Hf & Hs1);
    [discriminate|].
  destruct (choice_spec LAST_NAMES w1) as (l & w2 & E2 & Hl & Hs2);
    [discriminate|].
  exists f, l, w2. unfold redact_name, mbind, M_bind, bind. rewrite E1, E2.
  split; [reflexivity|]. split; [done|]. split; [done|congruence].
Qed.

Lemma email_shape local_part domain :
  str_forall is_ascii_lower local_part = true ->
  domain ∈ EMAIL_DOMAINS ->
  count_char "@" (local_part +:+ "@" +:+ domain) = 1%nat
  /\ split_on "@" (local_part +:+ "@" +:+ domain) = [local_part; domain]
  /\ str_contains "@" (local_part +:+ "@" +:+ domain) = true.
Proof.
  intros Hl Hd. destruct (EMAIL_DOMAINS_shape domain Hd) as (Hat & _ & _).
  assert (count_char "@" local_part = O) as Hl0
    by (eapply str_forall_count; [|exact Hl]; reflexivity).
  change ("@" +:+ domain) with (String "@" domain).
  split; [|split].
  - rewrite count_char_app. cbn [count_char]. rewrite Hl0, Hat. reflexivity.
  - rewrite split_on_app by done. by rewrite split_on_absent.
  - clear. induction local_part as [|c s IH].
    + rewrite app_empty. by destruct domain.
    + rewrite app_cons. cbn [str_contains]. rewrite IH. apply orb_true_r.
Qed.

Lemma name_shape first_name last_name :
  first_name ∈ FIRST_NAMES -> last_name ∈ LAST_NAMES ->
  split_on " " (first_name +:+ " " +:+ last_name) = [first_name; last_name]
  /\ count_char "@" (first_name +:+ " " +:+ last_name) = O
  /\ first_name <> EmptyString /\ last_name <> EmptyString.
Proof.
  intros Hf Hl.
  destruct (name_pool_shape FIRST_NAMES first_name eq_refl Hf) as (Hf1 & Hf2 & Hf3).
  destruct (name_pool_shape LAST_NAMES last_name eq_refl Hl) as (Hl1 & Hl2 & Hl3).
  change (" " +:+ last_name) with (String " " last_name).
  split; [|split; [|done]].
  - rewrite split_on_app by done. by rewrite split_on_absent.
  - rewrite count_char_app. cbn [count_char]. rewrite Hf2, Hl2. reflexivity.
Qed.

(** C5. Whatever the input and the generator state, [redact_email] returns
    local@domain: the local part has 5 to 10 lowercase letters, the domain
    comes from [EMAIL_DOMAINS], the result holds exactly one "@", splitting
    at "@" gives the local part and the domain, and the domain contains a
    "."; the input plays no part in the result. *)
Theorem redact_email_shape :
  forall (email : string) (w : World),
    (exists local_part domain w',
       redact_email email w = (Return (local_part +:+ "@" +:+ domain), w')
       /\ (5 <= String.length local_part <= 10)%nat
       /\ str_forall is_ascii_lower local_part = true
       /\ domain ∈ EMAIL_DOMAINS
       /\ count_char "@" (local_part +:+ "@" +:+ domain) = 1%nat
       /\ split_on "@" (local_part +:+ "@" +:+ domain) = [local_part; domain]
       /\ str_contains "." domain = true)
    /\ (forall other : string, redact_email other w = redact_email email w).
Proof.
  intros email w. split; [|reflexivity].
  destruct (redact_email_spec email w) as (l & d & w' & E & Hlen & Hlow & Hd & _).
  destruct (email_shape l d Hlow Hd) as (H1 & H2 & _).
  destruct (EMAIL_DOMAINS_shape d Hd) as (_ & Hdot & _).
  exists l, d, w'. auto 10.
Qed.

Lemma str_contains_char c s :
  str_contains (String c EmptyString) s
  = negb (Nat.eqb (count_char c s) 0).
Proof.
  induction s as [|d s IH]; [reflexivity|].
  cbn [str_contains count_char String.prefix]. rewrite IH.
  destruct (Ascii.eqb_spec d c) as [->|Hne].
  - destruct (ascii_dec c c); [|done]. by destruct s.
  - destruct (ascii_dec c d); [congruence|]. reflexivity.
Qed.

(** C6. [redact] looks for the character "@" in the value. With one, it is
    [redact_email]: the result has exactly one "@" and, after it, a
    non-empty domain that contains a ".". Without one, it is
    [redact_name]: the result is a first name from [FIRST_NAMES], one
    space, a last name from [LAST_NAMES], and these are its two tokens. *)
Theorem redact_dispatch :
  forall (v : string) (w : World),
    str_contains "@" v = negb (Nat.eqb (count_char "@" v) 0)
    /\ (str_contains "@" v = true ->
        redact v w = redact_email v w
        /\ exists local_part domain w',
             redact v w = (Return (local_part +:+ "@" +:+ domain), w')
             /\ count_char "@" (local_part +:+ "@" +:+ domain) = 1%nat
             /\ split_on "@" (local_part +:+ "@" +:+ domain)
                = [local_part; domain]
             /\ domain <> EmptyString
             /\ str_contains "." domain = true)
    /\ (str_contains "@" v = false ->
        redact v w = redact_name v w
        /\ exists first_name last_name w',
             redact v w = (Return (first_name +:+ " " +:+ last_name), w')
             /\ first_name ∈ FIRST_NAMES
             /\ last_name ∈ LAST_NAMES
             /\ split_on " " (first_name +:+ " " +:+ last_name)
                = [first_name; last_name]).
Proof.
  intros v w. split; [apply str_contains_char|].
  unfold redact. split; intros ->; (split; [reflexivity|]).
  - destruct (redact_email_spec v w) as (l & d & w' & E & _ & Hlow & Hd & _).
    destruct (email_shape l d Hlow Hd) as (H1 & H2 & _).
    destruct (EMAIL_DOMAINS_shape d Hd) as (_ & Hdot & Hne).
    exists l, d, w'. auto 10.
  - destruct (redact_name_spec v w) as (f & l & w' & E & Hf & Hl & _).
    destruct (name_shape f l Hf Hl) as (H1 & _).
    exists f, l, w'. auto 10.
Qed.

Lemma redact_dispatch_witness :
  str_contains "@" "test@example.com" = true
  /\ str_contains "@" "John Doe" = false
  /\ redact "test@example.com" (mkWorld new_transformer [2%N])
     = redact_email "test@example.com" (mkWorld new_transformer [2%N])
  /\ redact "John Doe" (mkWorld new_transformer [2%N])
     = redact_name "John Doe" (mkWorld new_transformer [2%N]).
Proof.
  split; [reflexivity|]. split; [reflexivity|]. split.
  - exact (proj1 (proj1 (proj2 (redact_dispatch "test@example.com"
                                  (mkWorld new_transformer [2%N])))
                    eq_refl)).
  - exact (proj1 (proj2 (proj2 (redact_dispatch "John Doe"
                                  (mkWorld new_transformer [2%N])))
                    eq_refl)).
Defined.

(** C8. For every input there are generator states on which
    [redact_name] gives different names, and a state from which two calls
    in a row give different names; the same holds for [redact_email]. *)
Theorem redact_generators_vary :
  forall s : string,
    (exists w1 w2 r1 r2,
       (redact_name s w1).1 = Return r1
       /\ (redact_name s w2).1 = Return r2 /\ r1 <> r2)
    /\ (exists w r1 r2,
          (redact_name s w).1 = Return r1
          /\ (redact_name s (redact_name s w).2).1 = Return r2 /\ r1 <> r2)
    /\ (exists w1 w2 r1 r2,
          (redact_email s w1).1 = Return r1
          /\ (redact_email s w2).1 = Return r2 /\ r1 <> r2)
    /\ (exists w r1 r2,
          (redact_email s w).1 = Return r1
          /\ (redact_email s (redact_email s w).2).1 = Return r2
          /\ r1 <> r2).
Proof.
  intros s. split; [|split; [|split]].
  - exists (mkWorld new_transformer [0%N; 0%N]),
           (mkWorld new_transformer [1%N; 0%N]),
           "James Smith", "Mary Smith".
    split; [reflexivity|]. split; [reflexivity|discriminate].
  - exists (mkWorld new_transformer [0%N; 0%N; 0%N; 1%N]),
           "James Smith", "James Johnson".
    split; [reflexivity|]. split; [reflexivity|discriminate].
  - exists (mkWorld new_transformer [0%N]), (mkWorld new_transformer [1%N]),
           "aaaaa@test.com", "aaaaaa@test.com".
    split; [reflexivity|]. split; [reflexivity|discriminate].
  - exists (mkWorld new_transformer [0%N; 0%N; 0%N; 0%N; 0%N; 0%N; 1%N]),
           "aaaaa@example.com", "aaaaa@test.com".
    split; [reflexivity|]. split; [reflexivity|discriminate].
Qed.

(** ** DateNormalizer: preprocessing *)

Lemma prefix_empty s : String.prefix EmptyString s = true.
Proof. by destruct s. Qed.

Lemma prefix_app_iff p s :
  String.prefix p s = true <-> exists t, s = p +:+ t.
Proof.
  revert s. induction p as [|c p IH]; intros s.
  - rewrite prefix_empty. split; [|done]. intros _. by exists s.
  - destruct s as [|d s]; cbn [String.prefix].
    + split; [discriminate|]. intros [t Ht]. discriminate.
    + destruct (ascii_dec c d) as [<-|Hne].
      * rewrite IH. split; intros [t Ht]; exists t.
        -- by rewrite app_cons, Ht.
        -- rewrite app_cons in Ht. by injection Ht.
      * split; [discriminate|]. intros [t Ht]. rewrite app_cons in Ht.
        injection Ht as -> _. done.
Qed.

Lemma str_contains_cons_false sub c s :
  str_contains sub (String c s) = false ->
  String.prefix sub (String c s) = false /\ str_contains sub s = false.
Proof. cbn [str_contains]. apply orb_false_elim. Qed.

(** An occurrence of " CET" cannot straddle the end of [a] and the start of
    a following " CET". *)
Lemma prefix_CET_straddle a t :
  String.prefix " CET" (a +:+ " CET" +:+ t) = true ->
  a = EmptyString \/ String.prefix " CET" a = true.
Proof.
  intros [u Hu]%prefix_app_iff.
  destruct a as [|c1 [|c2 [|c3 [|c4 a]]]]; [by left|..];
    try (exfalso; cbv in Hu; congruence).
  right. apply prefix_app_iff. exists a.
  cbv in Hu. injection Hu as -> -> -> -> _. reflexivity.
Qed.

Lemma replace_CET_here b :
  replace " CET" "" (" CET" +:+ b) = replace " CET" "" b.
Proof.
  unfold replace.
  change (" CET" +:+ b) with (String " " (String "C" (String "E" (String "T" b)))).
  cbn [replace_from].
  assert (String.prefix " CET" (String " " (String "C" (String "E" (String "T" b))))
          = true) as -> by (apply prefix_app_iff; by exists b).
  reflexivity.
Qed.

Lemma replace_CET_absent s :
  str_contains " CET" s = false -> replace " CET" "" s = s.
Proof.
  unfold replace. induction s as [|c s IH]; [reflexivity|].
  intros [Hp Hs]%str_contains_cons_false.
  cbn [replace_from]. rewrite Hp. by rewrite IH.
Qed.

(** The leftmost occurrence is removed wherever it stands, and the scan
    goes on behind it. *)
Lemma replace_CET_first a b :
  str_contains " CET" a = false ->
  replace " CET" "" (a +:+ " CET" +:+ b) = a +:+ replace " CET" "" b.
Proof.
  induction a as [|c a IH]; intros Ha.
  - rewrite !app_empty. apply replace_CET_here.
  - apply str_contains_cons_false in Ha as [Hp Ha].
    assert (String.prefix " CET" (String c a +:+ " CET" +:+ b) = false) as Hp'.
    { destruct (String.prefix " CET" (String c a +:+ " CET" +:+ b)) eqn:E;
        [|reflexivity].
      apply prefix_CET_straddle in E as [E|E]; congruence. }
    unfold replace in *. rewrite !app_cons in *. cbn [replace_from].
    rewrite Hp'. by rewrite IH.
Qed.

Lemma remove_suffix_absent s :
  str_contains " CET" s = false -> remove_suffix " CET" s = s.
Proof.
  induction s as [|c s IH]; [reflexivity|].
  intros H. cbn [remove_suffix].
  destruct (String.eqb_spec (String c s) " CET") as [E|_].
  - rewrite E in H. discriminate.
  - apply str_contains_cons_false in H as [_ H]. by rewrite IH.
Qed.

Lemma remove_suffix_trailing a :
  remove_suffix " CET" (a +:+ " CET") = a.
Proof.
  induction a as [|c a IH]; [reflexivity|].
  rewrite app_cons. cbn [remove_suffix].
  destruct (String.eqb_spec (String c (a +:+ " CET")) " CET") as [E|_].
  - apply (f_equal String.length) in E. cbn in E.
    rewrite length_app_string in E. cbn in E. lia.
  - by rewrite IH.
Qed.

Lemma app_empty_r s : s +:+ EmptyString = s.
Proof.
  induction s as [|c s IH]; [reflexivity|]. by rewrite app_cons, IH.
Qed.

Lemma try_formats_none fmts p :
  (forall fmt, fmt ∈ fmts -> strptime p fmt = None) -> try_formats fmts p = p.
Proof.
  induction fmts as [|fmt fmts IH]; intros H; [reflexivity|].
  cbn [try_formats]. rewrite (H fmt) by apply list_elem_of_here.
  apply IH. intros f Hf. apply H. by apply list_elem_of_further.
Qed.

(** Decide a statement about every format by running each of the three. *)
Ltac each_format Hin :=
  unfold formats in Hin;
  repeat (apply elem_of_cons in Hin as [->|Hin]; [vm_compute; reflexivity|]);
  by apply elem_of_nil in Hin.

(** C3, as the code has it. [timestamp_to_date] first deletes " CET"
    wherever it occurs (the leftmost occurrence goes and the scan continues
    behind it), then trims the white space around the string; on inputs
    where " CET" occurs at most once, at the very end, this is the same as
    taking off a trailing " CET". When no format parses the preprocessed
    string, the preprocessed string is returned as it is. *)
Theorem timestamp_to_date_fallback :
  forall s : string,
    (str_contains " CET" s = false -> preprocess s = strip s)
    /\ (forall a b, s = a +:+ " CET" +:+ b ->
          str_contains " CET" a = false ->
          preprocess s = strip (a +:+ replace " CET" "" b))
    /\ (str_contains " CET" s = false ->
          preprocess s = preprocess_trailing_only s
          /\ preprocess (s +:+ " CET")
             = preprocess_trailing_only (s +:+ " CET"))
    /\ ((forall fmt, fmt ∈ formats -> strptime (preprocess s) fmt = None) ->
          timestamp_to_date s = preprocess s).
Proof.
  intros s. unfold preprocess, preprocess_trailing_only.
  split; [|split; [|split]].
  - intros H. by rewrite replace_CET_absent.
  - intros a b -> Ha. by rewrite replace_CET_first.
  - intros H. split.
    + by rewrite replace_CET_absent, remove_suffix_absent.
    + rewrite remove_suffix_trailing.
      change (s +:+ " CET") with (s +:+ " CET" +:+ "").
      rewrite replace_CET_first by done.
      change (replace " CET" "" "") with EmptyString.
      by rewrite app_empty_r.
  - intros H. unfold timestamp_to_date, preprocess.
    by apply try_formats_none.
Qed.

Lemma timestamp_to_date_fallback_witness :
  (forall fmt, fmt ∈ formats ->
     strptime (preprocess "  not a date CET") fmt = None)
  /\ timestamp_to_date "  not a date CET" = preprocess "  not a date CET"
  /\ preprocess "  not a date CET" = "not a date".
Proof.
  assert (forall fmt, fmt ∈ formats ->
            strptime (preprocess "  not a date CET") fmt = None) as H
    by (intros fmt Hin; each_format Hin).
  split; [exact H|]. split; [|reflexivity].
  exact (proj2 (proj2 (proj2 (timestamp_to_date_fallback "  not a date CET"))) H).
Defined.

(** C3, as the specification words it, fails: " CET" in the middle of the
    input is deleted too. With only a trailing " CET" taken off, no format parses
    the string below and it would come back unchanged; the code returns a
    date. *)
Lemma timestamp_to_date_inner_CET :
  (forall fmt, fmt ∈ formats ->
     strptime (preprocess_trailing_only "2025-03-23 CET 16:54:43") fmt = None)
  /\ preprocess_trailing_only "2025-03-23 CET 16:54:43"
     = "2025-03-23 CET 16:54:43"
  /\ preprocess "2025-03-23 CET 16:54:43" = "2025-03-23 16:54:43"
  /\ timestamp_to_date "2025-03-23 CET 16:54:43" = "2025-03-23"
  /\ timestamp_to_date "2025-03-23 CET 16:54:43"
     <> preprocess_trailing_only "2025-03-23 CET 16:54:43".
Proof.
  split; [intros fmt Hin; each_format Hin|].
  split; [reflexivity|]. split; [reflexivity|]. split; [reflexivity|].
  discriminate.
Qed.

(** ** DateNormalizer: parsing and printing *)

Lemma N_of_digit_char n :
  N_of_ascii (digit_char n) = (48 + Z.to_N (n mod 10))%N.
Proof.
  unfold digit_char. apply N_ascii_embedding.
  pose proof (Z.mod_pos_bound n 10). lia.
Qed.

Lemma is_digit_digit_char n : is_digit (digit_char n) = true.
Proof.
  unfold is_digit. rewrite N_of_digit_char.
  pose proof (Z.mod_pos_bound n 10).
  apply andb_true_intro. split; apply N.leb_le; lia.
Qed.

Lemma is_space_digit_char n : is_space (digit_char n) = false.
Proof.
  unfold is_space. rewrite N_of_digit_char.
  pose proof (Z.mod_pos_bound n 10).
  repeat match goal with
  | |- (_ || _)%bool = false => apply orb_false_intro
  | |- (_ && _)%bool = false => apply andb_false_iff
  end; try (apply N.eqb_neq; lia).
  - right. apply N.leb_gt. lia.
  - right. apply N.leb_gt. lia.
Qed.

Lemma digits_value_digit_char n rest acc :
  digits_value (String (digit_char n) rest) acc
  = digits_value rest (10 * acc + n mod 10).
Proof.
  cbn [digits_value]. rewrite is_digit_digit_char, N_of_digit_char.
  pose proof (Z.mod_pos_bound n 10). do 2 f_equal. lia.
Qed.

Lemma int_of_str_pad2 n : 0 <= n <= 99 -> int_of_str (pad2 n) = Some n.
Proof.
  intros Hn. unfold int_of_str, strip, pad2. cbn [lstrip rstrip].
  rewrite !is_space_digit_char. cbn [rstrip]. rewrite !is_space_digit_char.
  rewrite !digits_value_digit_char. cbn [digits_value]. f_equal.
  Z.div_mod_to_equations. lia.
Qed.

Lemma int_of_str_pad4 n : 0 <= n <= 9999 -> int_of_str (pad4 n) = Some n.
Proof.
  intros Hn. unfold int_of_str, strip, pad4, pad2. cbn [lstrip rstrip].
  rewrite !is_space_digit_char. cbn [rstrip]. rewrite !is_space_digit_char.
  rewrite !digits_value_digit_char. cbn [digits_value]. f_equal.
  Z.div_mod_to_equations. lia.
Qed.

Lemma strptime_valid s fmt d :
  strptime s fmt = Some d -> datetime_valid d = true.
Proof.
  unfold strptime. destruct (compile_format fmt false) as [ps|]; [|done].
  cbn. destruct (match_pieces ps s) as [|[gs [|c rest]] ms]; [done| |done].
  destruct (set_groups _ gs) as [d'|]; [|done]. cbn.
  destruct (datetime_valid d') eqn:E; [|done]. by intros [= <-].
Qed.

Lemma datetime_valid_ranges d :
  datetime_valid d = true ->
  1 <= year d <= 9999 /\ 1 <= month d <= 12 /\ 1 <= day d <= 31.
Proof.
  unfold datetime_valid. rewrite !andb_true_iff, !Z.leb_le.
  intros H. assert (days_in_month (year d) (month d) <= 31).
  { unfold days_in_month. repeat case_match; lia. }
  lia.
Qed.

Lemma strftime_Y_m_d d :
  strftime d "%Y-%m-%d"
  = str_of_int (year d) +:+ "-" +:+ pad2 (month d) +:+ "-" +:+ pad2 (day d).
Proof. reflexivity. Qed.

(** The texts of the years 1 to 9999, checked one by one. *)
Lemma year_text y :
  1 <= y <= 9999 ->
  no_space (str_of_int y) = true
  /\ (1000 <= y -> str_of_int y = pad4 y)
  /\ (y < 1000 -> (String.length (str_of_int y) <= 3)%nat).
Proof.
  intros Hy.
  assert (forallb year_text_ok (seqZ 1 9999) = true) as Hall
    by (vm_compute; reflexivity).
  assert (year_text_ok y = true) as Hok.
  { apply (proj1 (forallb_forall _ _) Hall), list_elem_of_In, elem_of_seqZ.
    lia. }
  unfold year_text_ok in Hok. apply andb_prop in Hok as [Hns Hok].
  split; [done|]. split; intros Hcase.
  - rewrite (proj2 (Z.leb_le 1000 y) Hcase) in Hok. by apply String.eqb_eq.
  - rewrite (proj2 (Z.leb_gt 1000 y) Hcase) in Hok. by apply Nat.leb_le.
Qed.

Lemma no_space_app s t :
  no_space (s +:+ t) = no_space s && no_space t.
Proof.
  unfold no_space. induction s as [|c s IH]; [reflexivity|].
  rewrite app_cons. cbn [str_forall]. by rewrite IH, andb_assoc.
Qed.

Lemma no_space_trimmed s :
  no_space s = true ->
  starts_with_space s = false /\ ends_with_space s = false.
Proof.
  unfold no_space. intros H. split.
  - destruct s as [|c s]; [reflexivity|]. cbn in *.
    apply andb_prop in H as [Hc _]. by destruct (is_space c).
  - induction s as [|c s IH]; [reflexivity|]. cbn [str_forall] in H.
    apply andb_prop in H as [Hc Hs]. cbn [ends_with_space].
    destruct s; [by destruct (is_space c)|by apply IH].
Qed.

Lemma no_space_strftime d :
  datetime_valid d = true -> no_space (strftime d "%Y-%m-%d") = true.
Proof.
  intros (Hy & _)%datetime_valid_ranges.
  rewrite strftime_Y_m_d, no_space_app, (proj1 (year_text _ Hy)).
  unfold pad2. cbv [String.append no_space str_forall].
  by rewrite !is_space_digit_char.
Qed.

Lemma is_digit_dash_false c : is_digit c = true -> c <> "-"%char.
Proof. by intros H ->. Qed.

(** A canonical date has a dash in fifth place. *)
Lemma is_canonical_fifth y1 y2 y3 y4 c5 rest :
  is_canonical_date
    (String y1 (String y2 (String y3 (String y4 (String c5 rest))))) = true ->
  c5 = "-"%char.
Proof.
  intros H. destruct c5 as [[] [] [] [] [] [] [] []];
    first [ reflexivity | exfalso; cbn in H; discriminate ].
Qed.

(** The date printed is in the canonical form exactly from the year 1000
    on. *)
Lemma strftime_canonical d :
  datetime_valid d = true ->
  is_canonical_date (strftime d "%Y-%m-%d") = true <-> 1000 <= year d.
Proof.
  intros (Hy & _)%datetime_valid_ranges.
  destruct (year_text _ Hy) as (_ & Hbig & Hsmall).
  rewrite strftime_Y_m_d. split.
  - intros Hcan. destruct (Z_lt_le_dec (year d) 1000) as [Hlt|]; [|done].
    exfalso. specialize (Hsmall Hlt). unfold pad2 in Hcan.
    pose proof (is_digit_digit_char (month d)) as Dm.
    pose proof (is_digit_digit_char (day d / 10)) as Dd.
    destruct (str_of_int (year d)) as [|c1 [|c2 [|c3 [|c4 s]]]];
      cbv [String.append] in Hcan.
    + apply is_canonical_fifth in Hcan. by apply is_digit_dash_false in Dd.
    + apply is_canonical_fifth in Hcan as Hfifth. cbn in Hcan. discriminate.
    + apply is_canonical_fifth in Hcan. by apply is_digit_dash_false in Dm.
    + apply is_canonical_fifth in Hcan.
      pose proof (is_digit_digit_char (month d / 10)) as Dm'.
      by apply is_digit_dash_false in Dm'.
    + cbn in Hsmall. lia.
  - intros Hge. rewrite (Hbig Hge). unfold pad4, pad2.
    cbv [String.append is_canonical_date forallb].
    by rewrite !is_digit_digit_char.
Qed.

(** X21. [timestamp_to_date] tries the three formats in the order of the
    list, and the first that parses the preprocessed string decides: the
    result is that date printed. For a parsed date from the year 1000 on
    this is YYYY-MM-DD, four digits that read as its year, two that read
    as its month and two that read as its day. *)
Theorem timestamp_to_date_first_parse :
  formats = ["%Y-%b-%d"; "%Y-%m-%d %H:%M:%S"; "%Y-%m-%d"]
  /\ (forall s d,
        strptime (preprocess s) "%Y-%b-%d" = Some d ->
        timestamp_to_date s = strftime d "%Y-%m-%d")
  /\ (forall s d,
        strptime (preprocess s) "%Y-%b-%d" = None ->
        strptime (preprocess s) "%Y-%m-%d %H:%M:%S" = Some d ->
        timestamp_to_date s = strftime d "%Y-%m-%d")
  /\ (forall s d,
        strptime (preprocess s) "%Y-%b-%d" = None ->
        strptime (preprocess s) "%Y-%m-%d %H:%M:%S" = None ->
        strptime (preprocess s) "%Y-%m-%d" = Some d ->
        timestamp_to_date s = strftime d "%Y-%m-%d")
  /\ (forall s fmt d,
        strptime s fmt = Some d -> 1000 <= year d ->
        strftime d "%Y-%m-%d"
        = pad4 (year d) +:+ "-" +:+ pad2 (month d) +:+ "-" +:+ pad2 (day d)
        /\ is_canonical_date (strftime d "%Y-%m-%d") = true
        /\ int_of_str (pad4 (year d)) = Some (year d)
        /\ int_of_str (pad2 (month d)) = Some (month d)
        /\ int_of_str (pad2 (day d)) = Some (day d)).
Proof.
  split; [reflexivity|].
  split.
  { intros s d H1. unfold timestamp_to_date, formats. cbn [try_formats].
    by rewrite H1. }
  split.
  { intros s d H1 H2. unfold timestamp_to_date, formats. cbn [try_formats].
    by rewrite H1, H2. }
  split.
  { intros s d H1 H2 H3. unfold timestamp_to_date, formats.
    cbn [try_formats]. by rewrite H1, H2, H3. }
  intros s fmt d Hd Hge. apply strptime_valid in Hd.
  pose proof (datetime_valid_ranges d Hd) as (Hy & Hm & Hdd).
  split.
  { rewrite strftime_Y_m_d. by rewrite (proj1 (proj2 (year_text _ Hy)) Hge). }
  split; [by apply strftime_canonical|].
  split; [apply int_of_str_pad4; lia|].
  split; apply int_of_str_pad2; lia.
Qed.

(** C4. The code does not keep the canonical form for years below 1000.
    The three formats are tried in order and the first that parses
    decides, but the date is printed with the year as a plain number: the
    text 0999-01-01 is parsed by the third format and comes back as
    999-01-01, and 0001-Jan-01, parsed by the first, comes back as
    1-01-01. For a parsed date the result is in the form YYYY-MM-DD
    exactly when its year is 1000 or later. The four sample inputs of the
    specification, all in such years, give the dates stated. *)
Theorem timestamp_to_date_year_below_1000 :
  strptime (preprocess "0999-01-01") "%Y-%b-%d" = None
  /\ strptime (preprocess "0999-01-01") "%Y-%m-%d %H:%M:%S" = None
  /\ strptime (preprocess "0999-01-01") "%Y-%m-%d"
     = Some (mkdatetime 999 1 1 0 0 0)
  /\ timestamp_to_date "0999-01-01" = "999-01-01"
  /\ is_canonical_date (timestamp_to_date "0999-01-01") = false
  /\ strptime (preprocess "0001-Jan-01") "%Y-%b-%d"
     = Some (mkdatetime 1 1 1 0 0 0)
  /\ timestamp_to_date "0001-Jan-01" = "1-01-01"
  /\ (forall s fmt d,
        strptime s fmt = Some d ->
        (is_canonical_date (strftime d "%Y-%m-%d") = true
         <-> 1000 <= year d))
  /\ timestamp_to_date "2025-Mar-01" = "2025-03-01"
  /\ timestamp_to_date "2025-03-23 16:54:43 CET" = "2025-03-23"
  /\ timestamp_to_date "2025-03-23" = "2025-03-23"
  /\ timestamp_to_date "2021-Feb-17" = "2021-02-17".
Proof.
  do 7 (split; [vm_compute; reflexivity|]).
  split.
  { intros s fmt d Hd. by apply strftime_canonical, (strptime_valid s fmt). }
  repeat split; vm_compute; reflexivity.
Qed.

Example timestamp_to_date_samples :
  map timestamp_to_date
      ["2020-Jun-19"; "2024-Dec-31"; "2025-01-15 10:30:00 CET";
       "2024-02-29"; "2023-02-29"; "2025-Feb-30"; "2025-03-23 1:2:60"]
  = ["2020-06-19"; "2024-12-31"; "2025-01-15";
     "2024-02-29"; "2023-02-29"; "2025-Feb-30"; "2025-03-23 1:2:60"].
Proof. vm_compute. reflexivity. Qed.

(** ** TableTransformEngine *)

Section Engine.
Variable transformations : gmap string string.
Variable input_columns : list string.

Lemma transform_rows_acc rows : forall acc w,
  transform_rows transformations input_columns rows acc w
  = match transform_rows transformations input_columns rows [] w with
    | (Return trs, w') => (Return (acc ++ trs), w')
    | (Raise e, w') => (Raise e, w')
    end.
Proof.
  induction rows as [|row rows IH]; intros acc w.
  - cbn. by rewrite app_nil_r.
  - cbn [transform_rows]. unfold mbind, M_bind, bind.
    destruct (transform_columns transformations row input_columns ∅ w)
      as [[tr|e] w1]; [|reflexivity].
    rewrite (IH (acc ++ [tr])), (IH ([] ++ [tr])).
    destruct (transform_rows transformations input_columns rows [] w1)
      as [[trs|e] w2]; [|reflexivity].
    by rewrite <- app_assoc.
Qed.

Lemma transform_rows_cons row rows w :
  transform_rows transformations input_columns (row :: rows) [] w
  = match transform_columns transformations row input_columns ∅ w with
    | (Return tr, w1) =>
        match transform_rows transformations input_columns rows [] w1 with
        | (Return trs, w2) => (Return (tr :: trs), w2)
        | (Raise e, w2) => (Raise e, w2)
        end
    | (Raise e, w1) => (Raise e, w1)
    end.
Proof.
  cbn [transform_rows]. unfold mbind, M_bind, bind.
  destruct (transform_columns transformations row input_columns ∅ w)
    as [[tr|e] w1]; [|reflexivity].
  by rewrite transform_rows_acc.
Qed.

(** The loop is a map in input order: record [i] of the result is the
    transformation of record [i] of the input, run in the world that the
    records before it have left. *)
Lemma transform_rows_in_order rows : forall w trs w',
  transform_rows transformations input_columns rows [] w = (Return trs, w') ->
  length trs = length rows
  /\ forall i row, rows !! i = Some row ->
       exists tr,
         (transform_columns transformations row input_columns ∅
            (transform_rows transformations input_columns
               (take i rows) [] w).2).1 = Return tr
         /\ trs !! i = Some tr.
Proof.
  induction rows as [|row0 rows IH]; intros w trs w' H.
  - cbn in H. injection H as <- <-. split; [done|].
    intros i row Hi. by rewrite lookup_nil in Hi.
  - rewrite transform_rows_cons in H.
    destruct (transform_columns transformations row0 input_columns ∅ w)
      as [[tr0|e] w1] eqn:E0; [|done].
    destruct (transform_rows transformations input_columns rows [] w1)
      as [[trs'|e] w2] eqn:E1; [|done].
    injection H as <- <-. destruct (IH w1 trs' w2 E1) as [Hlen Hi].
    split; [by cbn; rewrite Hlen|].
    intros [|i] row Hrow.
    + injection Hrow as <-. exists tr0. cbn. by rewrite E0.
    + cbn in Hrow. destruct (Hi i row Hrow) as (tr & Htr & Hlk).
      exists tr. split; [|done].
      cbn [take]. rewrite transform_rows_cons, E0.
      destruct (transform_rows transformations input_columns (take i rows) [] w1)
        as [[?|?] ?]; exact Htr.
Qed.

(** One record: every input column holds the result of the dispatcher on
    the value of that column, and nothing else is added. *)
Lemma transform_columns_spec row columns : forall acc w tr w',
  transform_columns transformations row columns acc w = (Return tr, w') ->
  dom tr = dom acc ∪ list_to_set columns
  /\ (forall c, c ∉ columns -> tr !! c = acc !! c)
  /\ (forall c, c ∈ columns ->
        exists v r w1 w2,
          row !! c = Some v
          /\ apply_transformation v (transformations !! c) w1 = (Return r, w2)
          /\ tr !! c = Some r).
Proof.
  induction columns as [|column columns IH]; intros acc w tr w' H.
  - cbn in H. injection H as <- <-.
    split; [cbn; by rewrite (right_id_L ∅ (∪))|].
    split; [done|]. intros c Hc. by apply elem_of_nil in Hc.
  - cbn [transform_columns] in H. unfold mbind, M_bind, bind, getitem in H.
    destruct (row !! column) as [v|] eqn:Hv; [|done]. cbn in H.
    destruct (apply_transformation v (transformations !! column) w)
      as [[r|e] w1] eqn:Hr; [|done].
    destruct (IH _ _ _ _ H) as (Hdom & Hout & Hin).
    split; [|split].
    + rewrite Hdom, dom_insert_L. cbn [list_to_set].
      rewrite (comm_L (∪) {[column]} (dom acc)). by rewrite (assoc_L (∪)).
    + intros c Hc. apply not_elem_of_cons in Hc as [Hne Hc].
      rewrite (Hout c Hc). by rewrite lookup_insert_ne.
    + intros c Hc. destruct (decide (c ∈ columns)) as [Hc'|Hc'].
      * by apply Hin.
      * apply elem_of_cons in Hc as [->|Hc]; [|done].
        exists v, r, w, w1. rewrite (Hout column Hc'), lookup_insert_eq.
        done.
Qed.
End Engine.

Lemma writerows_project fieldnames rowdicts : forall recs,
  writerows fieldnames rowdicts = Return recs ->
  recs = map (project fieldnames) rowdicts.
Proof.
  induction rowdicts as [|rd rds IH]; intros recs H.
  - cbn in H. by injection H as <-.
  - cbn [writerows] in H. unfold dict_to_list in H.
    case_decide; [|done].
    destruct (writerows fieldnames rds) as [recs'|e]; [|done].
    injection H as <-. cbn [map]. by rewrite (IH recs').
Qed.

Lemma apply_transformation_returns v k w :
  (forall kind, k = Some kind -> kind ∈ recognized_kinds) ->
  exists r w', apply_transformation v k w = (Return r, w').
Proof.
  intros Hk. destruct k as [kind|]; [|by eexists _, _].
  specialize (Hk kind eq_refl). unfold recognized_kinds in Hk. cbn in Hk.
  repeat (apply elem_of_cons in Hk as [->|Hk]).
  - cbn. unfold mbind, M_bind, bind, on_self.
    destruct (uuid_to_sequential_int v (self w)). by eexists _, _.
  - cbn. unfold mbind, M_bind, bind, redact.
    destruct (str_contains "@" v).
    + destruct (redact_email_spec v w) as (l & d & w' & -> & _).
      by eexists _, _.
    + destruct (redact_name_spec v w) as (f & l & w' & -> & _).
      by eexists _, _.
  - by eexists _, _.
  - by apply elem_of_nil in Hk.
Qed.

Lemma transform_columns_returns transformations row columns :
  forall acc w,
    (forall c, c ∈ columns -> is_Some (row !! c)) ->
    kinds_recognized transformations columns ->
    exists tr w',
      transform_columns transformations row columns acc w = (Return tr, w').
Proof.
  induction columns as [|column columns IH]; intros acc w Hrow Hk.
  - by eexists _, _.
  - destruct (Hrow column) as [v Hv]; [apply list_elem_of_here|].
    destruct (apply_transformation_returns v (transformations !! column) w)
      as (r & w1 & Hr).
    { intros kind Hkind. eapply Hk; [apply list_elem_of_here|exact Hkind]. }
    cbn [transform_columns]. unfold mbind, M_bind, bind, getitem.
    rewrite Hv. cbn. rewrite Hr. apply IH.
    + intros c Hc. apply Hrow. by apply list_elem_of_further.
    + intros c kind Hc. apply Hk. by apply list_elem_of_further.
Qed.

Lemma transform_rows_returns transformations input_columns rows :
  forall w,
    rows_complete input_columns rows ->
    kinds_recognized transformations input_columns ->
    exists trs w',
      transform_rows transformations input_columns rows [] w
      = (Return trs, w').
Proof.
  induction rows as [|row rows IH]; intros w Hrows Hk.
  - by eexists _, _.
  - rewrite transform_rows_cons.
    destruct (transform_columns_returns transformations row input_columns ∅ w)
      as (tr & w1 & ->); [|done|].
    { intros c Hc. apply Hrows; [apply list_elem_of_here|done]. }
    destruct (IH w1) as (trs & w2 & ->); [|done|by eexists _, _].
    intros r c Hr. apply Hrows. by apply list_elem_of_further.
Qed.

Lemma writerows_returns fieldnames rowdicts :
  (forall rd, rd ∈ rowdicts -> dom rd ⊆ list_to_set fieldnames) ->
  exists recs, writerows fieldnames rowdicts = Return recs.
Proof.
  induction rowdicts as [|rd rds IH]; intros H; [by eexists|].
  cbn [writerows]. unfold dict_to_list.
  rewrite decide_True by (apply H, list_elem_of_here).
  destruct IH as [recs ->]; [|by eexists].
  intros r Hr. apply H. by apply list_elem_of_further.
Qed.

Lemma transform_csv_returned input_columns rows transformations column_order
    w tbl w' :
  transform_csv input_columns rows transformations column_order w
  = (Return tbl, w') ->
  exists trs,
    transform_rows (default ∅ transformations) input_columns rows [] w
    = (Return trs, w')
    /\ header tbl = (if truthy column_order then default [] column_order
                     else input_columns)
    /\ records tbl = map (project (header tbl)) trs.
Proof.
  unfold transform_csv, mbind, M_bind, bind. intros H.
  destruct (transform_rows _ input_columns rows [] w) as [[trs|e] w1]; [|done].
  destruct (writerows _ trs) as [recs|e] eqn:Hw; [|done].
  injection H as <- <-. exists trs. cbn [header records].
  split; [done|]. split; [done|]. by apply writerows_project.
Qed.

(** C7, as the code has it. When [transform_csv] returns, the header is
    [column_order] if that is supplied and not empty, and the input columns
    otherwise; there is one output record per input record, in input
    order; record [i] is the transformation of input record [i] (run in
    the world left by the records before it), laid out along the header;
    and the transformed record has exactly the input columns as keys, each
    holding what the dispatcher made of that column's value. The call does
    return when every record has every input column, the configured kinds
    are recognized and the header covers the input columns. *)
Theorem transform_csv_rows_in_order :
  forall input_columns rows transformations column_order w,
    (forall tbl w',
       transform_csv input_columns rows transformations column_order w
       = (Return tbl, w') ->
       (column_order = None -> header tbl = input_columns)
       /\ (column_order = Some [] -> header tbl = input_columns)
       /\ (forall co, column_order = Some co -> co <> [] -> header tbl = co)
       /\ length (records tbl) = length rows
       /\ (forall i row, rows !! i = Some row ->
             exists tr,
               (transform_columns (default ∅ transformations) row
                  input_columns ∅
                  (transform_rows (default ∅ transformations) input_columns
                     (take i rows) [] w).2).1 = Return tr
               /\ records tbl !! i = Some (project (header tbl) tr)
               /\ dom tr = list_to_set input_columns
               /\ (forall c, c ∈ input_columns ->
                     exists v r w1 w2,
                       row !! c = Some v
                       /\ apply_transformation v
                            (default ∅ transformations !! c) w1
                          = (Return r, w2)
                       /\ tr !! c = Some r)))
    /\ (rows_complete input_columns rows ->
        kinds_recognized (default ∅ transformations) input_columns ->
        (forall c, c ∈ input_columns ->
           c ∈ (if truthy column_order then default [] column_order
                else input_columns)) ->
        exists tbl w',
          transform_csv input_columns rows transformations column_order w
          = (Return tbl, w')).
Proof.
  intros input_columns rows transformations column_order w. split.
  - intros tbl w' H.
    destruct (transform_csv_returned _ _ _ _ _ _ _ H) as (trs & Htrs & Hh & Hr).
    destruct (transform_rows_in_order _ _ _ _ _ _ Htrs) as [Hlen Hrows].
    split; [by intros ->|]. split; [by intros ->|].
    split; [intros [|c co] -> Hne; [done|exact Hh]|].
    split; [by rewrite Hr, length_map|].
    intros i row Hrow. destruct (Hrows i row Hrow) as (tr & Htr & Hi).
    exists tr. split; [exact Htr|].
    split; [by rewrite Hr, list_lookup_fmap, Hi|].
    destruct (transform_columns _ row input_columns ∅ _) as [o w1] eqn:E.
    cbn in Htr. subst o.
    destruct (transform_columns_spec _ _ _ _ _ _ _ E) as (Hdom & _ & Hin).
    split; [|exact Hin]. rewrite Hdom, dom_empty_L. by rewrite (left_id_L ∅ (∪)).
  - intros Hrows Hk Hcover. unfold transform_csv, mbind, M_bind, bind.
    destruct (transform_rows_returns (default ∅ transformations)
                input_columns rows w Hrows Hk) as (trs & w' & E).
    rewrite E.
    destruct (transform_rows_in_order _ _ _ _ _ _ E) as [Hlen Hi].
    destruct (writerows_returns
                (if truthy column_order then default [] column_order
                 else input_columns) trs) as [recs ->]; [|by eexists _, _].
    intros rd Hrd. apply list_elem_of_lookup_1 in Hrd as [i Hrd].
    destruct (lookup_lt_is_Some_2 rows i) as [row Hrow];
      [rewrite <- Hlen; by eapply lookup_lt_Some|].
    destruct (Hi i row Hrow) as (tr & Htr & Htrs).
    assert (tr = rd) as -> by congruence.
    destruct (transform_columns _ row input_columns ∅ _) as [o w1] eqn:E1.
    cbn in Htr. subst o.
    destruct (transform_columns_spec _ _ _ _ _ _ _ E1) as (Hdom & _ & _).
    rewrite Hdom, dom_empty_L, (left_id_L ∅ (∪)).
    intros c Hc. apply elem_of_list_to_set in Hc. apply elem_of_list_to_set.
    by apply Hcover.
Qed.

Lemma transform_csv_rows_in_order_witness :
  transform_csv ["col1"; "col2"; "col3"]
    [ {[ "col1" := "a"; "col2" := "b"; "col3" := "c" ]};
      {[ "col1" := "d"; "col2" := "e"; "col3" := "f" ]} ]
    (Some ∅) (Some ["col3"; "col1"; "col2"]) (mkWorld new_transformer [])
  = (Return (mkcsv_table ["col3"; "col1"; "col2"]
               [["c"; "a"; "b"]; ["f"; "d"; "e"]]),
     mkWorld new_transformer [])
  /\ header (mkcsv_table ["col3"; "col1"; "col2"]
               [["c"; "a"; "b"]; ["f"; "d"; "e"]])
     = ["col3"; "col1"; "col2"].
Proof.
  assert (transform_csv ["col1"; "col2"; "col3"]
            [ {[ "col1" := "a"; "col2" := "b"; "col3" := "c" ]};
              {[ "col1" := "d"; "col2" := "e"; "col3" := "f" ]} ]
            (Some ∅) (Some ["col3"; "col1"; "col2"])
            (mkWorld new_transformer [])
          = (Return (mkcsv_table ["col3"; "col1"; "col2"]
                       [["c"; "a"; "b"]; ["f"; "d"; "e"]]),
             mkWorld new_transformer [])) as H
    by (vm_compute; reflexivity).
  split; [exact H|].
  apply (proj1 (proj2 (proj2 (proj1
           (transform_csv_rows_in_order _ _ _ _ _) _ _ H)))
           ["col3"; "col1"; "col2"]); [reflexivity|discriminate].
Defined.

(** C7, as the specification words it, fails on an empty [column_order]:
    it is supplied, yet the header is the input columns. *)
Lemma transform_csv_supplied_empty_order :
  (transform_csv ["col1"; "col2"; "col3"]
     [ {[ "col1" := "a"; "col2" := "b"; "col3" := "c" ]} ]
     (Some ∅) (Some []) (mkWorld new_transformer [])).1
  = Return (mkcsv_table ["col1"; "col2"; "col3"] [["a"; "b"; "c"]])
  /\ header (mkcsv_table ["col1"; "col2"; "col3"] [["a"; "b"; "c"]])
     <> ([] : list string).
Proof. split; [vm_compute; reflexivity|discriminate]. Qed.

Example transform_csv_basic :
  (transform_csv ["id"; "name"; "date"]
     [ {[ "id" := "UUID-123"; "name" := "John Doe"; "date" := "2025-Mar-01" ]};
       {[ "id" := "UUID-456"; "name" := "Jane Smith"; "date" := "2024-Dec-31" ]} ]
     (Some {[ "id" := "uuid_to_int"; "name" := "redact";
              "date" := "timestamp_to_date" ]})
     None (mkWorld new_transformer [3%N; 7%N; 10%N; 4%N])).1
  = Return (mkcsv_table ["id"; "name"; "date"]
              [["1"; "Patricia Davis"; "2025-03-01"];
               ["2"; "David Jones"; "2024-12-31"]]).
Proof. vm_compute. reflexivity. Qed.

(** C10. An empty [column_order] is treated like an absent one: the whole
    call behaves the same, and when it returns the header is the input
    columns, not an empty header. *)
Theorem transform_csv_empty_order_is_absent :
  forall input_columns rows transformations w,
    transform_csv input_columns rows transformations (Some []) w
    = transform_csv input_columns rows transformations None w
    /\ (forall tbl w',
          transform_csv input_columns rows transformations (Some []) w
          = (Return tbl, w') ->
          header tbl = input_columns).
Proof.
  intros input_columns rows transformations w. split; [reflexivity|].
  intros tbl w' H.
  by destruct (transform_csv_returned _ _ _ _ _ _ _ H) as (_ & _ & -> & _).
Qed.

Lemma transform_csv_empty_order_is_absent_witness :
  transform_csv ["col1"; "col2"]
    [ {[ "col1" := "value1"; "col2" := "value2" ]} ]
    (Some ∅) (Some []) (mkWorld new_transformer [])
  = (Return (mkcsv_table ["col1"; "col2"] [["value1"; "value2"]]),
     mkWorld new_transformer [])
  /\ header (mkcsv_table ["col1"; "col2"] [["value1"; "value2"]])
     = ["col1"; "col2"].
Proof.
  assert (transform_csv ["col1"; "col2"]
            [ {[ "col1" := "value1"; "col2" := "value2" ]} ]
            (Some ∅) (Some []) (mkWorld new_transformer [])
          = (Return (mkcsv_table ["col1"; "col2"] [["value1"; "value2"]]),
             mkWorld new_transformer [])) as H
    by (vm_compute; reflexivity).
  split; [exact H|].
  exact (proj2 (transform_csv_empty_order_is_absent _ _ _ _) _ _ H).
Defined.

(** * Further properties *)

(** ** IdentifierMapper, from any state *)

(** X1. Whatever the state, after [uuid_to_sequential_int u] the map holds
    [u] with the integer returned, every other key has the entry it had,
    no entry that was there is changed, and the counter moves by at most
    one and never back. *)
Theorem uuid_to_sequential_int_records :
  forall (t : CSVTransformer) (u : string),
    uuid_to_int_map (uuid_to_sequential_int u t).2 !! u
    = Some (uuid_to_sequential_int u t).1
    /\ (forall v, v <> u ->
          uuid_to_int_map (uuid_to_sequential_int u t).2 !! v
          = uuid_to_int_map t !! v)
    /\ keeps_entries t (uuid_to_sequential_int u t).2
    /\ next_id t <= next_id (uuid_to_sequential_int u t).2 <= next_id t + 1.
Proof.
  intros t u. unfold uuid_to_sequential_int, keeps_entries.
  destruct (uuid_to_int_map t !! u) as [n|] eqn:Hu; cbn.
  - split; [done|]. split; [done|]. split; [done|lia].
  - rewrite lookup_total_insert_eq, lookup_insert_eq.
    split; [done|]. split; [|split; [|lia]].
    + intros v Hv. by rewrite lookup_insert_ne.
    + intros v n Hv. rewrite lookup_insert_ne; [done|]. congruence.
Qed.

(** X2. In every state reached from a fresh transformer the integers in
    use are exactly 1, ..., [next_id - 1]: none is skipped, none lies
    outside, and no integer is held by two identifiers. *)
Theorem map_calls_range :
  forall (ids : list string) (n : Z),
    ((exists u, uuid_to_int_map (map_calls ids new_transformer).2 !! u
                = Some n)
     <-> 1 <= n < next_id (map_calls ids new_transformer).2)
    /\ (forall u v,
          uuid_to_int_map (map_calls ids new_transformer).2 !! u = Some n ->
          uuid_to_int_map (map_calls ids new_transformer).2 !! v = Some n ->
          u = v).
Proof.
  intros ids n.
  destruct (map_calls_spec ids new_transformer [] mapper_inv_new)
    as ((Hnd & Hnext & Hmap) & _ & _).
  split.
  - rewrite Hnext. split.
    + intros (u & Hu). apply Hmap in Hu as (k & Hk & ->).
      apply lookup_lt_Some in Hk. lia.
    + intros Hn.
      destruct (lookup_lt_is_Some_2 (first_seen_from [] ids) (Z.to_nat (n - 1)))
        as [u Hu]; [lia|].
      exists u. apply Hmap. exists (Z.to_nat (n - 1)). split; [done|lia].
  - intros u v Hu Hv.
    apply Hmap in Hu as (k & Hk & ->). apply Hmap in Hv as (k' & Hk' & E).
    assert (k = k') as -> by lia. congruence.
Qed.

(** ** Dispatcher and redactor: what a call may touch *)

Lemma kind_cases kind :
  kind = "uuid_to_int" \/ kind = "redact" \/ kind = "timestamp_to_date"
  \/ kind ∉ recognized_kinds.
Proof.
  destruct (decide (kind = "uuid_to_int")) as [->|H1]; [by left|].
  destruct (decide (kind = "redact")) as [->|H2]; [by right; left|].
  destruct (decide (kind = "timestamp_to_date")) as [->|H3];
    [by right; right; left|].
  right; right; right. unfold recognized_kinds. cbn. intros Hin.
  repeat (apply elem_of_cons in Hin as [Hin|Hin]; [congruence|]).
  by apply elem_of_nil in Hin.
Qed.

Lemma keeps_entries_refl t : keeps_entries t t.
Proof. by intros u n. Qed.

Lemma keeps_entries_trans t1 t2 t3 :
  keeps_entries t1 t2 -> keeps_entries t2 t3 -> keeps_entries t1 t3.
Proof. intros H12 H23 u n H. by apply H23, H12. Qed.

Lemma uuid_to_sequential_int_keeps t u :
  keeps_entries t (uuid_to_sequential_int u t).2.
Proof.
  unfold uuid_to_sequential_int, keeps_entries.
  destruct (uuid_to_int_map t !! u) as [n|] eqn:Hu; cbn; [done|].
  intros v n Hv. rewrite lookup_insert_ne; [done|]. congruence.
Qed.

Lemma uuid_to_sequential_int_lookup t u :
  uuid_to_int_map (uuid_to_sequential_int u t).2 !! u
  = Some (uuid_to_sequential_int u t).1.
Proof.
  unfold uuid_to_sequential_int.
  destruct (uuid_to_int_map t !! u) as [n|] eqn:Hu; cbn; [done|].
  by rewrite lookup_total_insert_eq, lookup_insert_eq.
Qed.

Lemma redact_self v w : self (redact v w).2 = self w.
Proof.
  unfold redact. destruct (str_contains "@" v).
  - by destruct (redact_email_spec v w) as (l & d & w' & -> & _ & _ & _ & Hs).
  - by destruct (redact_name_spec v w) as (f & l & w' & -> & _ & _ & Hs).
Qed.

Lemma apply_transformation_uuid v w :
  apply_transformation v (Some "uuid_to_int") w
  = (Return (VInt (uuid_to_sequential_int v (self w)).1),
     mkWorld (uuid_to_sequential_int v (self w)).2 (rng w)).
Proof.
  cbn. unfold mbind, M_bind, bind, on_self.
  by destruct (uuid_to_sequential_int v (self w)).
Qed.

Lemma apply_transformation_redact v w :
  apply_transformation v (Some "redact") w
  = match redact v w with
    | (Return r, w') => (Return (VStr r), w')
    | (Raise e, w') => (Raise e, w')
    end.
Proof. reflexivity. Qed.

Lemma apply_transformation_effect v k w :
  keeps_entries (self w) (self (apply_transformation v k w).2)
  /\ (k <> Some "uuid_to_int" -> self (apply_transformation v k w).2 = self w)
  /\ (k <> Some "redact" -> rng (apply_transformation v k w).2 = rng w).
Proof.
  destruct k as [kind|]; [|by split; [apply keeps_entries_refl|]].
  destruct (kind_cases kind) as [->|[->|[->|Hk]]].
  - rewrite apply_transformation_uuid. cbn.
    split; [apply uuid_to_sequential_int_keeps|]. by split.
  - assert (self (apply_transformation v (Some "redact") w).2 = self w) as E.
    { rewrite apply_transformation_redact. pose proof (redact_self v w) as H.
      by destruct (redact v w) as [[r|e] w']. }
    rewrite E. split; [apply keeps_entries_refl|]. by split.
  - cbn. split; [apply keeps_entries_refl|]. by split.
  - rewrite (apply_transformation_unknown kind v w Hk). cbn.
    split; [apply keeps_entries_refl|]. by split.
Qed.

(** X3. A call of [apply_transformation] never changes or removes an entry
    of the identifier map, whatever the kind and whether it returns or
    raises; only the kind uuid_to_int can touch the transformer at all, and
    only the kind redact can take draws from the generator. *)
Theorem apply_transformation_frame :
  forall (v : string) (k : option string) (w : World),
    keeps_entries (self w) (self (apply_transformation v k w).2)
    /\ (k <> Some "uuid_to_int" ->
        self (apply_transformation v k w).2 = self w)
    /\ (k <> Some "redact" ->
        rng (apply_transformation v k w).2 = rng w).
Proof. exact apply_transformation_effect. Qed.

Lemma apply_transformation_frame_witness :
  self (apply_transformation "a@b.c" (Some "redact")
          (mkWorld (uuid_to_sequential_int "u-1" new_transformer).2
                   [3%N; 1%N])).2
  = (uuid_to_sequential_int "u-1" new_transformer).2.
Proof.
  apply (proj1 (proj2 (apply_transformation_frame "a@b.c" (Some "redact")
                         (mkWorld (uuid_to_sequential_int "u-1" new_transformer).2
                                  [3%N; 1%N])))).
  discriminate.
Defined.

(** X4. With no kind or a recognized kind [apply_transformation] always
    returns: uuid_to_int gives the integer now stored for the value, the
    other kinds give a string. Together with the failure on every other
    kind, the call raises exactly when the kind is not recognized. *)
Theorem apply_transformation_returns_iff_recognized :
  forall (v : string) (k : option string) (w : World),
    ((forall kind, k = Some kind -> kind ∈ recognized_kinds)
     <-> exists r w', apply_transformation v k w = (Return r, w'))
    /\ (forall r w', apply_transformation v k w = (Return r, w') ->
          (k = Some "uuid_to_int" ->
             exists n, r = VInt n
                       /\ uuid_to_int_map (self w') !! v = Some n)
          /\ (k <> Some "uuid_to_int" -> exists s, r = VStr s)).
Proof.
  intros v k w. split.
  - split; [apply apply_transformation_returns|].
    intros (r & w' & H) kind ->.
    destruct (kind_cases kind) as [->|[->|[->|Hk]]];
      [unfold recognized_kinds; cbn; set_solver..|].
    rewrite (apply_transformation_unknown kind v w Hk) in H. discriminate.
  - intros r w' H. split.
    + intros ->. rewrite apply_transformation_uuid in H.
      injection H as <- <-. eexists. split; [reflexivity|]. cbn.
      apply uuid_to_sequential_int_lookup.
    + intros Hk. destruct k as [kind|]; [|cbn in H; injection H as <- _; eauto].
      destruct (kind_cases kind) as [->|[->|[->|Hu]]]; [done| | |].
      * rewrite apply_transformation_redact in H.
        destruct (redact v w) as [[s|e] w1]; [|done].
        injection H as <- _. eauto.
      * cbn in H. injection H as <- _. eauto.
      * rewrite (apply_transformation_unknown kind v w Hu) in H. discriminate.
Qed.

(** X5. [redact] keeps the category of a value: the result contains "@"
    exactly when the value does, so redacting a redacted value takes the
    same branch again. The transformer is left as it was. *)
Theorem redact_keeps_category :
  forall (v : string) (w : World),
    exists r w',
      redact v w = (Return r, w')
      /\ str_contains "@" r = str_contains "@" v
      /\ (forall w'', redact r w''
                      = if str_contains "@" v then redact_email r w''
                        else redact_name r w'')
      /\ self w' = self w.
Proof.
  intros v w. unfold redact at 1.
  destruct (str_contains "@" v) eqn:Hv.
  - destruct (redact_email_spec v w) as (l & d & w' & E & _ & Hlow & Hd & Hs).
    destruct (email_shape l d Hlow Hd) as (_ & _ & Hat).
    exists (l +:+ "@" +:+ d), w'. split; [done|]. split; [done|].
    split; [|done]. intros w''. unfold redact. by rewrite Hat.
  - destruct (redact_name_spec v w) as (f & l & w' & E & Hf & Hl & Hs).
    destruct (name_shape f l Hf Hl) as (_ & Hat & _).
    assert (str_contains "@" (f +:+ " " +:+ l) = false) as Hno
      by (rewrite str_contains_char, Hat; reflexivity).
    exists (f +:+ " " +:+ l), w'. split; [done|]. split; [done|].
    split; [|done]. intros w''. unfold redact. by rewrite Hno.
Qed.

(** ** DateNormalizer: the result is trimmed *)

Lemma lstrip_start s : starts_with_space (lstrip s) = false.
Proof.
  induction s as [|c s IH]; [reflexivity|]. cbn [lstrip].
  destruct (is_space c) eqn:Hc; [exact IH|]. exact Hc.
Qed.

Lemma rstrip_start s :
  starts_with_space s = false -> starts_with_space (rstrip s) = false.
Proof.
  destruct s as [|c s]; [done|]. cbn [starts_with_space rstrip]. intros Hc.
  destruct (rstrip s); [by rewrite Hc|exact Hc].
Qed.

Lemma rstrip_end s : ends_with_space (rstrip s) = false.
Proof.
  induction s as [|c s IH]; [reflexivity|]. cbn [rstrip].
  destruct (rstrip s) as [|d r] eqn:E.
  - destruct (is_space c) eqn:Hc; [reflexivity|exact Hc].
  - exact IH.
Qed.

Lemma strip_trimmed s :
  starts_with_space (strip s) = false /\ ends_with_space (strip s) = false.
Proof.
  unfold strip. split; [apply rstrip_start, lstrip_start|apply rstrip_end].
Qed.

Lemma strftime_trimmed d :
  datetime_valid d = true ->
  starts_with_space (strftime d "%Y-%m-%d") = false
  /\ ends_with_space (strftime d "%Y-%m-%d") = false.
Proof. intros Hvalid. by apply no_space_trimmed, no_space_strftime. Qed.

Lemma try_formats_cases fmts p :
  try_formats fmts p = p
  \/ exists fmt d, fmt ∈ fmts /\ strptime p fmt = Some d
                   /\ try_formats fmts p = strftime d "%Y-%m-%d".
Proof.
  induction fmts as [|fmt fmts IH]; [by left|]. cbn [try_formats].
  destruct (strptime p fmt) as [d|] eqn:E.
  - right. exists fmt, d. split; [apply list_elem_of_here|done].
  - destruct IH as [IH|(f & d & Hf & Hd & IH)]; [by left|].
    right. exists f, d. split; [by apply list_elem_of_further|done].
Qed.

(** X6. The result of [timestamp_to_date] never begins or ends with white
    space, whether a format parsed the input or the input fell through. *)
Theorem timestamp_to_date_trimmed :
  forall s : string,
    starts_with_space (timestamp_to_date s) = false
    /\ ends_with_space (timestamp_to_date s) = false.
Proof.
  intros s. unfold timestamp_to_date.
  destruct (try_formats_cases formats (preprocess s))
    as [->|(fmt & d & _ & Hd & ->)].
  - apply strip_trimmed.
  - by apply strftime_trimmed, (strptime_valid (preprocess s) fmt).
Qed.

(** ** TableTransformEngine: effects, edges and failures *)

Lemma world_eq w w' : self w' = self w -> rng w' = rng w -> w' = w.
Proof. destruct w, w'. cbn. by intros -> ->. Qed.

Lemma output_columns_order (column_order : option (list string))
    (input_columns : list string) :
  (if truthy column_order then default [] column_order else input_columns)
  = output_order column_order input_columns.
Proof. by destruct column_order as [[|c cs]|]. Qed.

Lemma transform_columns_effect transformations row columns :
  forall acc w,
    keeps_entries (self w)
      (self (transform_columns transformations row columns acc w).2)
    /\ ((forall c, c ∈ columns -> transformations !! c <> Some "uuid_to_int") ->
        self (transform_columns transformations row columns acc w).2 = self w)
    /\ ((forall c, c ∈ columns -> transformations !! c <> Some "redact") ->
        rng (transform_columns transformations row columns acc w).2 = rng w).
Proof.
  induction columns as [|column columns IH]; intros acc w.
  - cbn. split; [apply keeps_entries_refl|done].
  - cbn [transform_columns]. unfold mbind, M_bind, bind, getitem.
    destruct (row !! column) as [v|]; cbn;
      [|split; [apply keeps_entries_refl|done]].
    destruct (apply_transformation_effect v (transformations !! column) w)
      as (Hk & Hs & Hr).
    destruct (apply_transformation v (transformations !! column) w)
      as [[r|e] w1]; cbn in *.
    + destruct (IH (<[column:=r]> acc) w1) as (Hk' & Hs' & Hr').
      split; [by eapply keeps_entries_trans|]. split.
      * intros H. rewrite Hs'; [apply Hs, H, list_elem_of_here|].
        intros c Hc. by apply H, list_elem_of_further.
      * intros H. rewrite Hr'; [apply Hr, H, list_elem_of_here|].
        intros c Hc. by apply H, list_elem_of_further.
    + split; [done|]. split; intros H; [apply Hs|apply Hr];
        apply H, list_elem_of_here.
Qed.

Lemma transform_rows_effect transformations input_columns rows :
  forall acc w,
    keeps_entries (self w)
      (self (transform_rows transformations input_columns rows acc w).2)
    /\ ((forall c, c ∈ input_columns ->
           transformations !! c <> Some "uuid_to_int") ->
        self (transform_rows transformations input_columns rows acc w).2
        = self w)
    /\ ((forall c, c ∈ input_columns ->
           transformations !! c <> Some "redact") ->
        rng (transform_rows transformations input_columns rows acc w).2
        = rng w).
Proof.
  induction rows as [|row rows IH]; intros acc w.
  - cbn. split; [apply keeps_entries_refl|done].
  - cbn [transform_rows]. unfold mbind, M_bind, bind.
    destruct (transform_columns_effect transformations row input_columns ∅ w)
      as (Hk & Hs & Hr).
    destruct (transform_columns transformations row input_columns ∅ w)
      as [[tr|e] w1]; cbn in *; [|done].
    destruct (IH (acc ++ [tr]) w1) as (Hk' & Hs' & Hr').
    split; [by eapply keeps_entries_trans|].
    split; intros H; [rewrite Hs'|rewrite Hr']; auto.
Qed.

Lemma transform_csv_world input_columns rows transformations column_order w :
  (transform_csv input_columns rows transformations column_order w).2
  = (transform_rows (default ∅ transformations) input_columns rows [] w).2.
Proof.
  unfold transform_csv, mbind, M_bind, bind.
  destruct (transform_rows _ input_columns rows [] w) as [[trs|e] w1];
    [|done].
  by destruct (writerows _ trs).
Qed.

(** X7. A run of [transform_csv] never changes or removes an entry of the
    identifier map, whether it returns or fails part-way; if no input
    column is configured as uuid_to_int the transformer is left exactly as
    it was, and if none is configured as redact no draw is taken from the
    generator. *)
Theorem transform_csv_frame :
  forall input_columns rows transformations column_order w,
    keeps_entries (self w)
      (self (transform_csv input_columns rows transformations
               column_order w).2)
    /\ ((forall c, c ∈ input_columns ->
           default ∅ transformations !! c <> Some "uuid_to_int") ->
        self (transform_csv input_columns rows transformations
                column_order w).2 = self w)
    /\ ((forall c, c ∈ input_columns ->
           default ∅ transformations !! c <> Some "redact") ->
        rng (transform_csv input_columns rows transformations
               column_order w).2 = rng w).
Proof.
  intros. rewrite transform_csv_world. apply transform_rows_effect.
Qed.

Lemma transform_csv_frame_witness :
  self (transform_csv ["name"; "date"]
          [ {[ "name" := "John Doe"; "date" := "2025-Mar-01" ]} ]
          (Some {[ "name" := "redact"; "date" := "timestamp_to_date" ]})
          None
          (mkWorld (uuid_to_sequential_int "u-1" new_transformer).2
                   [5%N; 6%N])).2
  = (uuid_to_sequential_int "u-1" new_transformer).2.
Proof.
  apply (proj1 (proj2 (transform_csv_frame ["name"; "date"]
           [ {[ "name" := "John Doe"; "date" := "2025-Mar-01" ]} ]
           (Some {[ "name" := "redact"; "date" := "timestamp_to_date" ]})
           None
           (mkWorld (uuid_to_sequential_int "u-1" new_transformer).2
                    [5%N; 6%N])))).
  intros c Hc. cbn [default].
  repeat (apply elem_of_cons in Hc as [->|Hc]; [by vm_compute|]).
  by apply elem_of_nil in Hc.
Defined.

Lemma transform_columns_plain transformations row columns :
  forall acc w,
    (forall c, c ∈ columns -> transformations !! c = None) ->
    (forall c, c ∈ columns -> is_Some (row !! c)) ->
    exists tr,
      transform_columns transformations row columns acc w = (Return tr, w)
      /\ forall key, tr !! key = if decide (key ∈ columns)
                                 then VStr <$> row !! key
                                 else acc !! key.
Proof.
  induction columns as [|column columns IH]; intros acc w Hnone Hrow.
  - exists acc. split; [done|]. intros key.
    rewrite decide_False; [done|apply not_elem_of_nil].
  - destruct (Hrow column) as [v Hv]; [apply list_elem_of_here|].
    destruct (IH (<[column := VStr v]> acc) w) as (tr & E & Htr).
    { intros c Hc. by apply Hnone, list_elem_of_further. }
    { intros c Hc. by apply Hrow, list_elem_of_further. }
    exists tr. split.
    + cbn [transform_columns]. unfold mbind, M_bind, bind, getitem.
      rewrite Hv, (Hnone column) by apply list_elem_of_here. exact E.
    + intros key. rewrite Htr.
      destruct (decide (key ∈ columns)) as [Hin|Hout].
      * rewrite decide_True; [done|by apply list_elem_of_further].
      * destruct (decide (key = column)) as [->|Hne].
        -- rewrite decide_True by apply list_elem_of_here.
           by rewrite lookup_insert_eq, Hv.
        -- rewrite decide_False; [by rewrite lookup_insert_ne|].
           intros [?|?]%elem_of_cons; done.
Qed.

Lemma transform_rows_plain transformations input_columns rows :
  forall w,
    (forall c, c ∈ input_columns -> transformations !! c = None) ->
    rows_complete input_columns rows ->
    exists trs,
      transform_rows transformations input_columns rows [] w = (Return trs, w)
      /\ Forall2 (fun row tr =>
                    forall key, tr !! key = if decide (key ∈ input_columns)
                                            then VStr <$> row !! key
                                            else None)
                 rows trs.
Proof.
  induction rows as [|row rows IH]; intros w Hnone Hrows.
  - exists []. by split.
  - destruct (transform_columns_plain transformations row input_columns ∅ w)
      as (tr & E & Htr); [done| |].
    { intros c Hc. apply Hrows; [apply list_elem_of_here|done]. }
    destruct (IH w Hnone) as (trs & E' & Hall).
    { intros r c Hr. apply Hrows. by apply list_elem_of_further. }
    exists (tr :: trs). rewrite transform_rows_cons, E, E'.
    split; [done|]. constructor; [|done].
    intros key. rewrite Htr. by rewrite lookup_empty.
Qed.

(** The cells of an untouched record along [fieldnames]: the value of an
    input column, nothing for any other name. *)
Lemma project_plain (input_columns fieldnames : list string)
    (row : gmap string string) (tr : gmap string value) :
  (forall c, c ∈ input_columns -> is_Some (row !! c)) ->
  (forall key, tr !! key = if decide (key ∈ input_columns)
                           then VStr <$> row !! key else None) ->
  project fieldnames tr
  = map (fun key => if decide (key ∈ input_columns)
                    then default "" (row !! key) else "") fieldnames.
Proof.
  intros Hrow Htr. unfold project. apply map_ext. intros key.
  rewrite Htr. case_decide as Hk; [|done].
  by destruct (Hrow key Hk) as [v ->].
Qed.

Lemma transform_csv_plain :
  forall input_columns rows column_order w,
    rows_complete input_columns rows ->
    (forall c, c ∈ input_columns ->
       c ∈ output_order column_order input_columns) ->
    transform_csv input_columns rows None column_order w
    = (Return
         (mkcsv_table (output_order column_order input_columns)
            (map (fun row =>
                    map (fun key => if decide (key ∈ input_columns)
                                    then default "" (row !! key) else "")
                        (output_order column_order input_columns))
                 rows)),
       w)
    /\ transform_csv input_columns rows (Some ∅) column_order w
       = transform_csv input_columns rows None column_order w.
Proof.
  intros input_columns rows column_order w Hrows Hcover.
  split; [|reflexivity].
  destruct (transform_rows_plain ∅ input_columns rows w) as (trs & E & Hall);
    [intros; apply lookup_empty|done|].
  unfold transform_csv, mbind, M_bind, bind. cbn [default]. rewrite E.
  rewrite output_columns_order.
  assert (writerows (output_order column_order input_columns) trs
          = Return (map (fun row =>
                      map (fun key => if decide (key ∈ input_columns)
                                      then default "" (row !! key) else "")
                          (output_order column_order input_columns)) rows))
    as ->; [|done].
  clear E. induction Hall as [|row tr rows trs Htr Hall IH]; [done|].
  cbn [writerows map]. unfold dict_to_list. rewrite decide_True.
  - rewrite IH by (intros r c Hr; apply Hrows; by apply list_elem_of_further).
    fold (project (output_order column_order input_columns) tr).
    erewrite project_plain; [done| |exact Htr].
    intros c Hc. apply Hrows; [apply list_elem_of_here|done].
  - intros key [x Hx]%elem_of_dom. rewrite Htr in Hx.
    case_decide as Hk; [|done]. apply elem_of_list_to_set. by apply Hcover.
Qed.

(** X8. Pass-through. Without transformations ([None], or an empty
    dictionary, which is the same call) and with records that have every
    input column, [transform_csv] returns whenever the header covers the
    input columns; each output record carries the input values unchanged,
    laid out along the header, with an empty cell under any header name
    that is no input column; the transformer and the generator are left
    as they were. *)
Theorem transform_csv_pass_through :
  forall input_columns rows column_order w,
    rows_complete input_columns rows ->
    (forall c, c ∈ input_columns ->
       c ∈ output_order column_order input_columns) ->
    transform_csv input_columns rows None column_order w
    = (Return
         (mkcsv_table (output_order column_order input_columns)
            (map (fun row =>
                    map (fun key => if decide (key ∈ input_columns)
                                    then default "" (row !! key) else "")
                        (output_order column_order input_columns))
                 rows)),
       w)
    /\ transform_csv input_columns rows (Some ∅) column_order w
       = transform_csv input_columns rows None column_order w.
Proof. exact transform_csv_plain. Qed.

Lemma transform_csv_pass_through_witness :
  transform_csv ["col1"; "col2"]
    [ {[ "col1" := "value1"; "col2" := "value2" ]} ]
    None (Some ["col2"; "extra"; "col1"]) (mkWorld new_transformer [9%N])
  = (Return (mkcsv_table ["col2"; "extra"; "col1"]
               [["value2"; ""; "value1"]]),
     mkWorld new_transformer [9%N]).
Proof.
  refine (eq_trans
            (proj1 (transform_csv_pass_through ["col1"; "col2"]
                      [ {[ "col1" := "value1"; "col2" := "value2" ]} ]
                      (Some ["col2"; "extra"; "col1"])
                      (mkWorld new_transformer [9%N]) _ _)) _).
  - intros row c Hrow Hc.
    apply list_elem_of_singleton in Hrow as ->.
    repeat (apply elem_of_cons in Hc as [->|Hc]; [by vm_compute; eexists|]).
    by apply elem_of_nil in Hc.
  - intros c Hc. cbn [output_order].
    repeat (apply elem_of_cons in Hc as [->|Hc]; [set_solver|]).
    by apply elem_of_nil in Hc.
  - vm_compute. reflexivity.
Defined.

Lemma outcome_cases {A} (r : outcome A * World) :
  (exists a w', r = (Return a, w')) \/ (exists e w', r = (Raise e, w')).
Proof. destruct r as [[a|e] w']; eauto. Qed.

(** X9. The configuration is checked only when a value is dispatched.
    With no records [transform_csv] returns the bare header and leaves the
    world alone, whatever the configuration says; with at least one record
    an unrecognized kind on any input column makes the call fail. *)
Theorem transform_csv_checks_kinds_on_records :
  forall input_columns rows transformations column_order w,
    (rows = [] ->
     transform_csv input_columns rows transformations column_order w
     = (Return (mkcsv_table (output_order column_order input_columns) []),
        w))
    /\ (rows <> [] ->
        (exists c kind, c ∈ input_columns
                        /\ default ∅ transformations !! c = Some kind
                        /\ kind ∉ recognized_kinds) ->
        exists e w',
          transform_csv input_columns rows transformations column_order w
          = (Raise e, w')).
Proof.
  intros input_columns rows transformations column_order w. split.
  - intros ->. unfold transform_csv. cbn.
    by rewrite output_columns_order.
  - intros Hne (c & kind & Hc & Hkind & Hunk).
    destruct (outcome_cases
                (transform_csv input_columns rows transformations
                   column_order w)) as [(tbl & w' & H)|H]; [|done].
    exfalso.
    destruct (transform_csv_returned _ _ _ _ _ _ _ H) as (trs & Htrs & _).
    destruct rows as [|row rows]; [done|].
    destruct (transform_rows_in_order _ _ _ _ _ _ Htrs) as [_ Hrows].
    destruct (Hrows 0%nat row eq_refl) as (tr & Htr & _).
    destruct (transform_columns _ row input_columns ∅ _) as [o w1] eqn:E.
    cbn in Htr. subst o.
    destruct (transform_columns_spec _ _ _ _ _ _ _ E) as (_ & _ & Hin).
    destruct (Hin c Hc) as (v & r & w2 & w3 & _ & Happ & _).
    rewrite Hkind, (apply_transformation_unknown kind v w2 Hunk) in Happ.
    discriminate.
Qed.

Lemma transform_csv_checks_kinds_on_records_witness :
  transform_csv ["id"] [] (Some {[ "id" := "bogus_kind" ]}) None
    (mkWorld new_transformer [])
  = (Return (mkcsv_table ["id"] []), mkWorld new_transformer [])
  /\ exists e w',
       transform_csv ["id"] [ {[ "id" := "u-1" ]} ]
         (Some {[ "id" := "bogus_kind" ]}) None (mkWorld new_transformer [])
       = (Raise e, w').
Proof.
  split.
  - exact (proj1 (transform_csv_checks_kinds_on_records ["id"] []
                    (Some {[ "id" := "bogus_kind" ]}) None
                    (mkWorld new_transformer [])) eq_refl).
  - apply (proj2 (transform_csv_checks_kinds_on_records ["id"]
                    [ {[ "id" := "u-1" ]} ]
                    (Some {[ "id" := "bogus_kind" ]}) None
                    (mkWorld new_transformer []))); [discriminate|].
    exists "id", "bogus_kind". split; [apply list_elem_of_here|].
    split; [reflexivity|]. unfold recognized_kinds. cbn. intros Hin.
    repeat (apply elem_of_cons in Hin as [Hin|Hin]; [discriminate|]).
    by apply elem_of_nil in Hin.
Defined.

(** X10. [transform_csv] cannot drop a column. If the output order leaves
    out an input column and there is at least one record, then, the
    records being complete and the kinds recognized, every record is
    transformed first and the writer then refuses the first one with a
    [ValueError]; nothing is returned. *)
Theorem transform_csv_refuses_dropped_column :
  forall input_columns rows transformations column_order w,
    rows <> [] ->
    rows_complete input_columns rows ->
    kinds_recognized (default ∅ transformations) input_columns ->
    (exists c, c ∈ input_columns
               /\ c ∉ output_order column_order input_columns) ->
    exists trs w',
      transform_rows (default ∅ transformations) input_columns rows [] w
      = (Return trs, w')
      /\ transform_csv input_columns rows transformations column_order w
         = (Raise (ValueError "dict contains fields not in fieldnames"), w').
Proof.
  intros input_columns rows transformations column_order w
         Hne Hrows Hk (c & Hc & Hout).
  destruct (transform_rows_returns (default ∅ transformations)
              input_columns rows w Hrows Hk) as (trs & w' & E).
  exists trs, w'. split; [done|].
  unfold transform_csv, mbind, M_bind, bind. rewrite E.
  rewrite output_columns_order.
  destruct rows as [|row rows]; [done|].
  destruct (transform_rows_in_order _ _ _ _ _ _ E) as [Hlen Hi].
  destruct (Hi 0%nat row eq_refl) as (tr & Htr & Htrs).
  destruct trs as [|tr0 trs]; [done|]. injection Htrs as ->.
  destruct (transform_columns _ row input_columns ∅ _) as [o w1] eqn:E1.
  cbn in Htr. subst o.
  destruct (transform_columns_spec _ _ _ _ _ _ _ E1) as (Hdom & _ & _).
  cbn [writerows]. unfold dict_to_list. rewrite decide_False; [done|].
  intros Hsub. apply Hout.
  apply (elem_of_list_to_set (C := gset string)), Hsub. rewrite Hdom.
  apply elem_of_union_r. by apply elem_of_list_to_set.
Qed.

Lemma transform_csv_refuses_dropped_column_witness :
  exists trs w',
    transform_rows ∅ ["col1"; "col2"]
      [ {[ "col1" := "a"; "col2" := "b" ]} ] []
      (mkWorld new_transformer []) = (Return trs, w')
    /\ transform_csv ["col1"; "col2"]
         [ {[ "col1" := "a"; "col2" := "b" ]} ]
         None (Some ["col2"]) (mkWorld new_transformer [])
       = (Raise (ValueError "dict contains fields not in fieldnames"), w').
Proof.
  apply (transform_csv_refuses_dropped_column ["col1"; "col2"]
           [ {[ "col1" := "a"; "col2" := "b" ]} ]
           None (Some ["col2"]) (mkWorld new_transformer [])).
  - discriminate.
  - intros row c Hrow Hc. apply list_elem_of_singleton in Hrow as ->.
    repeat (apply elem_of_cons in Hc as [->|Hc]; [by vm_compute; eexists|]).
    by apply elem_of_nil in Hc.
  - intros c kind _ H. cbn [default] in H. by rewrite lookup_empty in H.
  - exists "col1". split; [apply list_elem_of_here|].
    cbn [output_order]. intros Hin.
    apply list_elem_of_singleton in Hin. discriminate.
Defined.

(** ** TableTransformEngine: identifiers across the table *)

Lemma str_of_int_inj n m : str_of_int n = str_of_int m -> n = m.
Proof.
  unfold str_of_int. intros H.
  assert (forall z, NilZero.int_of_string (NilZero.string_of_int (Z.to_int z))
                    = Some (Z.to_int z)) as Hisi.
  { intros z. apply NilZero.isi; destruct z as [|p|p]; cbn;
      try discriminate; intros [= E];
      by apply DecimalPos.Unsigned.to_uint_nonnil in E. }
  apply DecimalZ.to_int_inj.
  apply (f_equal NilZero.int_of_string) in H. rewrite !Hisi in H.
  by injection H.
Qed.

Lemma mapper_consistent_facts t :
  mapper_consistent t ->
  (forall u v n, uuid_to_int_map t !! u = Some n ->
                 uuid_to_int_map t !! v = Some n -> u = v)
  /\ (forall u n, uuid_to_int_map t !! u = Some n -> 1 <= n < next_id t).
Proof.
  intros (seen & Hnd & Hnext & Hmap). split.
  - intros u v n Hu Hv.
    apply Hmap in Hu as (k & Hk & ->). apply Hmap in Hv as (k' & Hk' & E).
    assert (k = k') as -> by lia. congruence.
  - intros u n Hu. apply Hmap in Hu as (k & Hk & ->).
    apply lookup_lt_Some in Hk. lia.
Qed.

Lemma apply_transformation_consistent v k w :
  mapper_consistent (self w) ->
  mapper_consistent (self (apply_transformation v k w).2).
Proof.
  intros Hc. destruct (decide (k = Some "uuid_to_int")) as [->|Hk].
  - rewrite apply_transformation_uuid. cbn. destruct Hc as [seen Hinv].
    exists (see seen v). by apply uuid_to_sequential_int_step.
  - by rewrite (proj1 (proj2 (apply_transformation_effect v k w)) Hk).
Qed.

Lemma transform_columns_uuid transformations row columns :
  forall acc w tr w',
    mapper_consistent (self w) ->
    transform_columns transformations row columns acc w = (Return tr, w') ->
    mapper_consistent (self w')
    /\ forall c, c ∈ columns -> transformations !! c = Some "uuid_to_int" ->
         exists v n, row !! c = Some v /\ tr !! c = Some (VInt n)
                     /\ uuid_to_int_map (self w') !! v = Some n.
Proof.
  induction columns as [|column columns IH]; intros acc w tr w' Hc H.
  - cbn in H. injection H as <- <-. split; [done|].
    intros c Hin. by apply elem_of_nil in Hin.
  - cbn [transform_columns] in H. unfold mbind, M_bind, bind, getitem in H.
    destruct (row !! column) as [v|] eqn:Hv; [|done]. cbn in H.
    pose proof (apply_transformation_consistent v (transformations !! column)
                  w Hc) as Hc1.
    destruct (apply_transformation v (transformations !! column) w)
      as [[r|e] w1] eqn:Hr; [|done]. cbn in Hc1.
    destruct (IH _ _ _ _ Hc1 H) as (Hc' & Hin).
    split; [done|]. intros c Hcin Hkind.
    destruct (decide (c ∈ columns)) as [Htail|Htail]; [by apply Hin|].
    apply elem_of_cons in Hcin as [->|?]; [|done].
    rewrite Hkind, apply_transformation_uuid in Hr. injection Hr as <- <-.
    destruct (transform_columns_spec _ _ _ _ _ _ _ H) as (_ & Hout & _).
    pose proof (transform_columns_effect transformations row columns
                  (<[column:=VInt (uuid_to_sequential_int v (self w)).1]> acc)
                  (mkWorld (uuid_to_sequential_int v (self w)).2 (rng w)))
      as (Hkeep & _).
    rewrite H in Hkeep. cbn in Hkeep.
    exists v, (uuid_to_sequential_int v (self w)).1.
    split; [done|]. split.
    + by rewrite (Hout column Htail), lookup_insert_eq.
    + apply Hkeep, uuid_to_sequential_int_lookup.
Qed.

Lemma transform_rows_uuid transformations input_columns rows :
  forall w trs w',
    mapper_consistent (self w) ->
    transform_rows transformations input_columns rows [] w = (Return trs, w') ->
    mapper_consistent (self w')
    /\ forall i row c,
         rows !! i = Some row -> c ∈ input_columns ->
         transformations !! c = Some "uuid_to_int" ->
         exists tr v n, trs !! i = Some tr /\ row !! c = Some v
                        /\ tr !! c = Some (VInt n)
                        /\ uuid_to_int_map (self w') !! v = Some n.
Proof.
  induction rows as [|row0 rows IH]; intros w trs w' Hc H.
  - cbn in H. injection H as <- <-. split; [done|].
    intros i row c Hi. by rewrite lookup_nil in Hi.
  - rewrite transform_rows_cons in H.
    destruct (transform_columns transformations row0 input_columns ∅ w)
      as [[tr0|e] w1] eqn:E0; [|done].
    destruct (transform_columns_uuid _ _ _ _ _ _ _ Hc E0) as (Hc1 & H0).
    pose proof (transform_rows_effect transformations input_columns rows [] w1)
      as (Hkeep & _).
    destruct (transform_rows transformations input_columns rows [] w1)
      as [[trs'|e] w2] eqn:E1; [|done].
    injection H as <- <-. cbn in Hkeep.
    destruct (IH _ _ _ Hc1 E1) as (Hc2 & Hrest).
    split; [done|]. intros [|i] row c Hi Hcin Hkind.
    + injection Hi as <-. destruct (H0 c Hcin Hkind) as (v & n & Hv & Htr & Hm).
      exists tr0, v, n. split; [done|]. split; [done|]. split; [done|].
      by apply Hkeep.
    + destruct (Hrest i row c Hi Hcin Hkind) as (tr & v & n & ? & ? & ? & ?).
      by exists tr, v, n.
Qed.

(** X11. Identifiers stay consistent across the whole table. Starting from
    a consistent transformer (a fresh one, for instance), take any two
    cells of uuid_to_int columns, in any two records and any two such
    columns: each is written as the decimal text of a positive integer,
    and the two texts are equal exactly when the two input identifiers
    are equal. *)
Theorem transform_csv_identifiers_consistent :
  forall input_columns rows transformations column_order w tbl w',
    mapper_consistent (self w) ->
    transform_csv input_columns rows transformations column_order w
    = (Return tbl, w') ->
    forall i j row_i row_j c d v_i v_j p q,
      rows !! i = Some row_i -> rows !! j = Some row_j ->
      c ∈ input_columns -> d ∈ input_columns ->
      default ∅ transformations !! c = Some "uuid_to_int" ->
      default ∅ transformations !! d = Some "uuid_to_int" ->
      row_i !! c = Some v_i -> row_j !! d = Some v_j ->
      header tbl !! p = Some c -> header tbl !! q = Some d ->
      exists n m rec_i rec_j,
        records tbl !! i = Some rec_i /\ records tbl !! j = Some rec_j
        /\ rec_i !! p = Some (str_of_int n)
        /\ rec_j !! q = Some (str_of_int m)
        /\ 1 <= n /\ 1 <= m
        /\ (n = m <-> v_i = v_j)
        /\ (str_of_int n = str_of_int m <-> v_i = v_j).
Proof.
  intros input_columns rows transformations column_order w tbl w' Hcons H
         i j row_i row_j c d v_i v_j p q Hi Hj Hc Hd Hkc Hkd Hvi Hvj Hp Hq.
  destruct (transform_csv_returned _ _ _ _ _ _ _ H) as (trs & Htrs & _ & Hrec).
  destruct (transform_rows_uuid _ _ _ _ _ _ Hcons Htrs) as (Hcons' & Hcells).
  destruct (Hcells i row_i c Hi Hc Hkc) as (tr_i & v & n & Hti & Hv & Hn & Hmn).
  destruct (Hcells j row_j d Hj Hd Hkd) as (tr_j & v' & m & Htj & Hv' & Hm & Hmm).
  assert (v = v_i) as -> by congruence.
  assert (v' = v_j) as -> by congruence.
  destruct (mapper_consistent_facts _ Hcons') as (Hinj & Hpos).
  exists n, m, (project (header tbl) tr_i), (project (header tbl) tr_j).
  split; [by rewrite Hrec, list_lookup_fmap, Hti|].
  split; [by rewrite Hrec, list_lookup_fmap, Htj|].
  split; [by unfold project; rewrite list_lookup_fmap, Hp; cbn; rewrite Hn|].
  split; [by unfold project; rewrite list_lookup_fmap, Hq; cbn; rewrite Hm|].
  split; [by apply (Hpos v_i)|]. split; [by apply (Hpos v_j)|].
  assert (n = m <-> v_i = v_j) as Hiff.
  { split; [intros ->; by eapply Hinj|intros ->; congruence]. }
  split; [done|]. rewrite <- Hiff. split; [apply str_of_int_inj|by intros ->].
Qed.

Lemma transform_csv_identifiers_consistent_witness :
  exists n m rec_i rec_j,
    records (mkcsv_table ["user"; "manager"]
               [["1"; "2"]; ["2"; "2"]]) !! 0%nat = Some rec_i
    /\ records (mkcsv_table ["user"; "manager"]
                  [["1"; "2"]; ["2"; "2"]]) !! 1%nat = Some rec_j
    /\ rec_i !! 1%nat = Some (str_of_int n)
    /\ rec_j !! 0%nat = Some (str_of_int m)
    /\ 1 <= n /\ 1 <= m
    /\ (n = m <-> "u-2" = "u-2")
    /\ (str_of_int n = str_of_int m <-> "u-2" = "u-2").
Proof.
  assert (transform_csv ["user"; "manager"]
            [ {[ "user" := "u-1"; "manager" := "u-2" ]};
              {[ "user" := "u-2"; "manager" := "u-2" ]} ]
            (Some {[ "user" := "uuid_to_int"; "manager" := "uuid_to_int" ]})
            None (mkWorld new_transformer [])
          = (Return (mkcsv_table ["user"; "manager"]
                       [["1"; "2"]; ["2"; "2"]]),
             mkWorld (map_calls ["u-1"; "u-2"] new_transformer).2 [])) as H
    by (vm_compute; reflexivity).
  refine (transform_csv_identifiers_consistent _ _ _ _
            (mkWorld new_transformer []) _ _
            (ex_intro _ [] mapper_inv_new) H
            0%nat 1%nat
            {[ "user" := "u-1"; "manager" := "u-2" ]}
            {[ "user" := "u-2"; "manager" := "u-2" ]}
            "manager" "user" "u-2" "u-2" 1%nat 0%nat
            _ _ _ _ _ _ _ _ _ _);
    first [ by vm_compute
          | apply list_elem_of_here
          | apply list_elem_of_further, list_elem_of_here ].
Defined.

(** ** The prompt *)

Section Prompt.
Variable column : string.
Variable transformations_list : list string.

(** What one pass through the [while] loop can end in. *)
Lemma choose_transformation_outcome lines : forall config written,
  (exists config' used rest written',
     choose_transformation column transformations_list config lines written
     = (IOReturn config', mkConsole rest written')
     /\ lines = used ++ rest /\ used <> []
     /\ (config' = config
         \/ exists kind, kind ∈ transformations_list
                         /\ config' = <[column := kind]> config))
  \/ (exists e c',
        choose_transformation column transformations_list config lines written
        = (IORaise e, c')
        /\ (e = EOFError
            \/ e = Uncaught (ValueError "invalid literal for int()"))).
Proof.
  induction lines as [|line lines IH]; intros config written.
  - right. eexists _, _. split; [reflexivity|]. by left.
  - cbn [choose_transformation].
    assert (forall written1,
      (exists config' used rest written',
         choose_transformation column transformations_list config lines
           written1 = (IOReturn config', mkConsole rest written')
         /\ line :: lines = used ++ rest /\ used <> []
         /\ (config' = config
             \/ exists kind, kind ∈ transformations_list
                             /\ config' = <[column := kind]> config))
      \/ (exists e c',
            choose_transformation column transformations_list config lines
              written1 = (IORaise e, c')
            /\ (e = EOFError
                \/ e = Uncaught (ValueError "invalid literal for int()"))))
      as Hskip.
    { intros written1.
      destruct (IH config written1)
        as [(c' & used & rest & w' & E & -> & Hne & Hc)|H]; [|by right].
      left. exists c', (line :: used), rest, w'. by split. }
    destruct (isdigit (strip line)); cbn [negb]; [|apply Hskip].
    destruct (int_of_digits (strip line)) as [n|].
    2:{ right. eexists _, _. split; [reflexivity|]. by right. }
    destruct (n =? 0).
    { left. exists config, [line], lines. eexists. split; [reflexivity|].
      split; [done|]. split; [done|]. by left. }
    destruct ((1 <=? n) && (n <=? Z.of_nat (length transformations_list)))
      eqn:Hrange; [|apply Hskip].
    apply andb_prop in Hrange as [H1%Z.leb_le H2%Z.leb_le].
    destruct (lookup_lt_is_Some_2 transformations_list (Z.to_nat (n - 1)))
      as [kind Hkind]; [lia|].
    rewrite Hkind. left.
    exists (<[column := kind]> config), [line], lines. eexists.
    split; [reflexivity|]. split; [done|]. split; [done|]. right.
    exists kind. split; [|done]. eapply list_elem_of_lookup_2; eauto.
Qed.

Lemma choose_transformation_skips skipped : forall config written line rest n,
  Forall (skipped_answer transformations_list) skipped ->
  isdigit (strip line) = true ->
  int_of_digits (strip line) = Some n ->
  0 <= n <= Z.of_nat (length transformations_list) ->
  exists written',
    choose_transformation column transformations_list config
      (skipped ++ line :: rest) written
    = (IOReturn (if n =? 0 then config
                 else match transformations_list !! Z.to_nat (n - 1) with
                      | Some kind => <[column := kind]> config
                      | None => config
                      end),
       mkConsole rest written').
Proof.
  induction skipped as [|bad skipped IH];
    intros config written line rest n Hbad Hdig Hint Hn.
  - cbn [app choose_transformation]. rewrite Hdig, Hint. cbn [negb].
    destruct (n =? 0) eqn:H0; [by eexists|].
    apply Z.eqb_neq in H0.
    rewrite (proj2 (andb_true_iff _ _)) by (split; apply Z.leb_le; lia).
    destruct (lookup_lt_is_Some_2 transformations_list (Z.to_nat (n - 1)))
      as [kind ->]; [lia|]. by eexists.
  - apply Forall_cons in Hbad as [Hb Hbad].
    cbn [app choose_transformation].
    destruct Hb as [Hb|(k & Hk & Hbig)].
    + rewrite Hb. cbn [negb]. by apply IH.
    + destruct (isdigit (strip bad)); cbn [negb]; [|by apply IH].
      rewrite Hk.
      rewrite (proj2 (Z.eqb_neq k 0)) by lia.
      rewrite (proj2 (andb_false_iff _ _))
        by (right; apply Z.leb_gt; lia).
      by apply IH.
Qed.
End Prompt.

Lemma choose_all_outcome transformations_list columns : forall config c,
  (exists config' used rest written',
     choose_all columns transformations_list config c
     = (IOReturn config', mkConsole rest written')
     /\ stdin c = used ++ rest
     /\ (length columns <= length used)%nat
     /\ (forall col kind, config' !! col = Some kind ->
           config !! col = Some kind
           \/ (col ∈ columns /\ kind ∈ transformations_list)))
  \/ (exists e c',
        choose_all columns transformations_list config c = (IORaise e, c')
        /\ (e = EOFError
            \/ e = Uncaught (ValueError "invalid literal for int()"))).
Proof.
  induction columns as [|column columns IH]; intros config c.
  - left. exists config, [], (stdin c), (stdout c). destruct c.
    split; [reflexivity|]. split; [done|]. split; [done|]. by left.
  - cbn [choose_all]. unfold mbind, IO_bind, io_bind.
    destruct (choose_transformation_outcome column transformations_list
                (stdin c) config (stdout c))
      as [(cfg1 & used1 & rest1 & w1 & E1 & Hin & Hne & Hcfg)|(e & c' & E & He)].
    2:{ right. exists e, c'. by rewrite E. }
    rewrite E1.
    destruct (IH cfg1 (mkConsole rest1 w1))
      as [(cfg2 & used2 & rest2 & w2 & E2 & Hin2 & Hlen & Hcfg2)
         |(e & c' & E & He)].
    2:{ right. exists e, c'. by rewrite E. }
    left. exists cfg2, (used1 ++ used2), rest2, w2. rewrite E2.
    cbn [stdin] in Hin2. split; [done|].
    split; [by rewrite Hin, Hin2, app_assoc|]. split.
    { rewrite length_app. destruct used1; [done|]. cbn [length]. lia. }
    intros col kind Hk. destruct (Hcfg2 col kind Hk) as [H1|[Hc Hkind]].
    + destruct Hcfg as [->|(k & Hkin & ->)]; [by left|].
      destruct (decide (col = column)) as [->|Hne'].
      * rewrite lookup_insert_eq in H1. injection H1 as <-. right.
        split; [apply list_elem_of_here|done].
      * rewrite lookup_insert_ne in H1 by done. by left.
    + right. split; [by apply list_elem_of_further|done].
Qed.

Lemma split_on_nonempty sep s : split_on sep s <> [].
Proof.
  destruct s as [|c s]; [done|]. cbn [split_on].
  destruct (Ascii.eqb c sep); [done|]. by destruct (split_on sep s).
Qed.

Lemma print_transformations_ok transformations_list : forall i c,
  exists written',
    print_transformations i transformations_list c
    = (IOReturn tt, mkConsole (stdin c) written').
Proof.
  induction transformations_list as [|trans rest IH]; intros i c.
  - exists (stdout c). by destruct c.
  - cbn [print_transformations]. unfold mbind, IO_bind, io_bind, print.
    destruct (IH (i + 1) (mkConsole (stdin c)
                (stdout c ++ [("  [" +:+ str_of_int i +:+ "] " +:+ trans)
                              +:+ newline]))) as [w ->].
    by exists w.
Qed.

Lemma interactive_mode_outcome columns c :
  (exists config column_order used rest written',
     interactive_mode columns c
     = (IOReturn (config, column_order), mkConsole rest written')
     /\ stdin c = used ++ rest
     /\ (length columns + 1 <= length used)%nat
     /\ (forall col kind, config !! col = Some kind ->
           col ∈ columns /\ kind ∈ recognized_kinds)
     /\ (column_order = None
         \/ exists answer,
              column_order = Some (map strip (split_on "," (strip answer)))))
  \/ (exists e c',
        interactive_mode columns c = (IORaise e, c')
        /\ (e = EOFError
            \/ e = Uncaught (ValueError "invalid literal for int()"))).
Proof.
  unfold interactive_mode, mbind, IO_bind, io_bind, print.
  cbn [stdin stdout].
  match goal with
  | |- context [print_transformations 1 ?tl ?c0] =>
      destruct (print_transformations_ok tl 1 c0) as [w0 ->]
  end.
  cbn [stdin stdout]. fold recognized_kinds.
  match goal with
  | |- context [choose_all columns ?tl ∅ ?c1] =>
      destruct (choose_all_outcome tl columns ∅ c1)
        as [(cfg & used & rest & w1 & E & Hin & Hlen & Hcfg)|(e & c' & E & He)]
  end.
  2:{ right. exists e, c'. by rewrite E. }
  rewrite E. cbn [stdin] in Hin. unfold input. cbn [stdin stdout].
  assert (forall col kind, cfg !! col = Some kind ->
            col ∈ columns /\ kind ∈ recognized_kinds) as Hcfg'.
  { intros col kind Hk. destruct (Hcfg col kind Hk) as [H|H]; [|done].
    by rewrite lookup_empty in H. }
  destruct rest as [|answer rest].
  { right. eexists _, _. split; [reflexivity|]. by left. }
  destruct (String.eqb (lower (strip answer)) "y").
  - unfold print. cbn [stdin stdout].
    destruct rest as [|answer' rest].
    { right. eexists _, _. split; [reflexivity|]. by left. }
    left. exists cfg, (Some (map strip (split_on "," (strip answer')))),
             (used ++ [answer; answer']), rest. eexists.
    split; [reflexivity|]. split; [by rewrite Hin, <- app_assoc|].
    split; [rewrite length_app; cbn; lia|]. split; [done|]. right. eauto.
  - left. exists cfg, None, (used ++ [answer]), rest. eexists.
    split; [reflexivity|]. split; [by rewrite Hin, <- app_assoc|].
    split; [rewrite length_app; cbn; lia|]. split; [done|]. by left.
Qed.

(** X12. A configuration that [interactive_mode] returns names input
    columns only and recognized kinds only, so under it every dispatch of
    [apply_transformation] returns: the unknown-kind failure cannot
    happen. *)
Theorem interactive_mode_config_recognized :
  forall columns c config column_order c',
    interactive_mode columns c = (IOReturn (config, column_order), c') ->
    (forall col kind, config !! col = Some kind ->
       col ∈ columns /\ kind ∈ recognized_kinds)
    /\ kinds_recognized config columns
    /\ (forall col v w, exists r w',
          apply_transformation v (config !! col) w = (Return r, w')).
Proof.
  intros columns c config column_order c' H.
  destruct (interactive_mode_outcome columns c)
    as [(cfg & co & used & rest & w1 & E & _ & _ & Hcfg & _)|(e & c1 & E & _)];
    [|congruence].
  rewrite E in H. injection H as -> -> <-.
  split; [done|]. split.
  - intros col kind _ Hk. by apply (Hcfg col kind).
  - intros col v w. apply apply_transformation_returns.
    intros kind Hk. by apply (Hcfg col kind).
Qed.

Lemma interactive_mode_config_recognized_witness :
  kinds_recognized {[ "id" := "uuid_to_int"; "when" := "timestamp_to_date" ]}
    ["id"; "name"; "when"].
Proof.
  assert (exists c',
            interactive_mode ["id"; "name"; "when"]
              (mkConsole ["1"; "x"; "0"; "7"; "3"; "n"] [])
            = (IOReturn ({[ "id" := "uuid_to_int";
                            "when" := "timestamp_to_date" ]}, None), c'))
    as [c' H] by (eexists; vm_compute; reflexivity).
  exact (proj1 (proj2 (interactive_mode_config_recognized _ _ _ _ _ H))).
Defined.

(** X13. The column order that [interactive_mode] returns is either absent
    or a list with at least one name, each name trimmed of white space:
    it is never the empty list, so the fallback of [transform_csv] on an
    empty order is never what decides the header after the prompt. *)
Theorem interactive_mode_order_not_empty :
  forall columns c config column_order c',
    interactive_mode columns c = (IOReturn (config, column_order), c') ->
    column_order <> Some []
    /\ (forall names, column_order = Some names ->
          names <> []
          /\ Forall (fun s => starts_with_space s = false
                              /\ ends_with_space s = false) names
          /\ forall input_columns,
               output_order column_order input_columns = names).
Proof.
  intros columns c config column_order c' H.
  destruct (interactive_mode_outcome columns c)
    as [(cfg & co & used & rest & w1 & E & _ & _ & _ & Hco)|(e & c1 & E & _)];
    [|congruence].
  rewrite E in H. injection H as -> -> <-.
  destruct Hco as [->|(answer & ->)]; [by split|].
  pose proof (split_on_nonempty "," (strip answer)) as Hne.
  assert (Forall (fun s => starts_with_space s = false
                           /\ ends_with_space s = false)
                 (map strip (split_on "," (strip answer)))) as Htrim.
  { apply List.Forall_map, Forall_true. intros s. apply strip_trimmed. }
  destruct (split_on "," (strip answer)) as [|x xs]; [done|].
  split; [done|]. by intros names [= <-].
Qed.

Lemma interactive_mode_order_not_empty_witness :
  output_order (Some [""]) ["id"] = [""].
Proof.
  assert (exists c',
            interactive_mode ["id"] (mkConsole ["0"; "y"; "  "] [])
            = (IOReturn (∅, Some [""]), c'))
    as [c' H] by (eexists; vm_compute; reflexivity).
  exact (proj2 (proj2 (proj2 (interactive_mode_order_not_empty _ _ _ _ _ H)
                         [""] eq_refl)) ["id"]).
Defined.

(** X14. [interactive_mode] asks about every column and about the order:
    when it returns it has taken at least one line per column and one
    more, and what is left of the input is a suffix of what was there. The
    only failures are [EOFError], when the input runs out, and the
    [ValueError] of [int] on an answer that [isdigit] let through; with no
    more lines than columns it cannot return. *)
Theorem interactive_mode_reads_every_answer :
  forall columns c,
    (forall result c', interactive_mode columns c = (IOReturn result, c') ->
       exists used, stdin c = used ++ stdin c'
                    /\ (length columns + 1 <= length used)%nat)
    /\ (forall e c', interactive_mode columns c = (IORaise e, c') ->
          e = EOFError
          \/ e = Uncaught (ValueError "invalid literal for int()"))
    /\ ((length (stdin c) <= length columns)%nat ->
        exists e c', interactive_mode columns c = (IORaise e, c')).
Proof.
  intros columns c.
  destruct (interactive_mode_outcome columns c)
    as [(cfg & co & used & rest & w1 & E & Hin & Hlen & _)|(e & c1 & E & He)].
  - split; [|split].
    + intros result c' H. rewrite E in H. injection H as _ <-. by exists used.
    + intros e c' H. congruence.
    + intros Hshort. rewrite Hin, length_app in Hshort. lia.
  - split; [|split].
    + intros result c' H. congruence.
    + intros e' c' H. rewrite E in H. by injection H as <- _.
    + intros _. by exists e, c1.
Qed.

(** X15. The column's loop is settled by the first answer that, trimmed,
    is a number from 0 to the number of transformations: every answer
    before it that is no number, or a number past the last choice, is
    passed over; 0 leaves the configuration as it is, and [n] stores the
    [n]-th transformation for the column. The lines behind the settling
    answer are left for the next prompt. *)
Theorem choose_transformation_first_valid_answer :
  forall column transformations_list config skipped line rest written n,
    Forall (skipped_answer transformations_list) skipped ->
    isdigit (strip line) = true ->
    int_of_digits (strip line) = Some n ->
    0 <= n <= Z.of_nat (length transformations_list) ->
    exists written',
      choose_transformation column transformations_list config
        (skipped ++ line :: rest) written
      = (IOReturn (if n =? 0 then config
                   else match transformations_list !! Z.to_nat (n - 1) with
                        | Some kind => <[column := kind]> config
                        | None => config
                        end),
         mkConsole rest written').
Proof.
  intros column transformations_list config skipped line rest written n.
  apply choose_transformation_skips.
Qed.

Lemma choose_transformation_first_valid_answer_witness :
  exists written',
    choose_transformation "name" recognized_kinds ∅
      (["redact"; ""; " 12 "] ++ " 2 " :: ["n"]) []
    = (IOReturn (if 2 =? 0 then ∅
                 else match recognized_kinds !! Z.to_nat (2 - 1) with
                      | Some kind => <["name" := kind]> ∅
                      | None => ∅
                      end),
       mkConsole ["n"] written').
Proof.
  apply (choose_transformation_first_valid_answer "name" recognized_kinds ∅
           ["redact"; ""; " 12 "] " 2 " ["n"] [] 2).
  - apply List.Forall_cons; [left; reflexivity|].
    apply List.Forall_cons; [left; reflexivity|].
    apply List.Forall_cons; [|apply List.Forall_nil].
    right. exists 12. split; [reflexivity|]. by vm_compute.
  - reflexivity.
  - reflexivity.
  - by vm_compute.
Defined.

(** ** [main]: the prompt and the engine together *)

Lemma writerows_outcome fieldnames rowdicts :
  (exists recs, writerows fieldnames rowdicts = Return recs)
  \/ writerows fieldnames rowdicts
     = Raise (ValueError "dict contains fields not in fieldnames").
Proof.
  induction rowdicts as [|rd rds IH]; [left; by eexists|].
  cbn [writerows]. unfold dict_to_list. case_decide; [|by right].
  destruct IH as [[recs ->]| ->]; [left; by eexists|by right].
Qed.

Lemma transform_csv_complete_outcome input_columns rows transformations
    column_order w :
  rows_complete input_columns rows ->
  kinds_recognized (default ∅ transformations) input_columns ->
  (exists tbl w',
     transform_csv input_columns rows transformations column_order w
     = (Return tbl, w'))
  \/ (exists w',
        transform_csv input_columns rows transformations column_order w
        = (Raise (ValueError "dict contains fields not in fieldnames"), w')).
Proof.
  intros Hrows Hk. unfold transform_csv, mbind, M_bind, bind.
  destruct (transform_rows_returns (default ∅ transformations)
              input_columns rows w Hrows Hk) as (trs & w' & ->).
  destruct (writerows_outcome
              (if truthy column_order then default [] column_order
               else input_columns) trs) as [[recs ->]| ->].
  - left. by eexists _, _.
  - right. by eexists.
Qed.

Lemma transform_csv_covered_returns input_columns rows transformations
    column_order w :
  rows_complete input_columns rows ->
  kinds_recognized (default ∅ transformations) input_columns ->
  (forall c, c ∈ input_columns ->
     c ∈ output_order column_order input_columns) ->
  exists tbl w',
    transform_csv input_columns rows transformations column_order w
    = (Return tbl, w').
Proof.
  intros Hrows Hk Hcover. unfold transform_csv, mbind, M_bind, bind.
  destruct (transform_rows_returns (default ∅ transformations)
              input_columns rows w Hrows Hk) as (trs & w' & E).
  rewrite E, output_columns_order.
  destruct (transform_rows_in_order _ _ _ _ _ _ E) as [Hlen Hi].
  destruct (writerows_returns (output_order column_order input_columns) trs)
    as [recs ->]; [|by eexists _, _].
  intros rd Hrd. apply list_elem_of_lookup_1 in Hrd as [i Hrd].
  destruct (lookup_lt_is_Some_2 rows i) as [row Hrow];
    [rewrite <- Hlen; by eapply lookup_lt_Some|].
  destruct (Hi i row Hrow) as (tr & Htr & Htrs).
  assert (tr = rd) as -> by congruence.
  destruct (transform_columns _ row input_columns ∅ _) as [o w1] eqn:E1.
  cbn in Htr. subst o.
  destruct (transform_columns_spec _ _ _ _ _ _ _ E1) as (Hdom & _ & _).
  rewrite Hdom, dom_empty_L, (left_id_L ∅ (∪)).
  intros c Hc%elem_of_list_to_set. apply elem_of_list_to_set.
  by apply Hcover.
Qed.

Lemma transform_csv_writer_failure input_columns rows transformations
    column_order w e w' :
  rows_complete input_columns rows ->
  kinds_recognized (default ∅ transformations) input_columns ->
  transform_csv input_columns rows transformations column_order w
  = (Raise e, w') ->
  e = ValueError "dict contains fields not in fieldnames"
  /\ exists col, col ∈ input_columns
                 /\ col ∉ output_order column_order input_columns.
Proof.
  intros Hrows Hk H. split.
  - destruct (transform_csv_complete_outcome input_columns rows
                transformations column_order w Hrows Hk)
      as [(tbl & w1 & E)|(w1 & E)]; congruence.
  - destruct (decide (Forall (fun col =>
                col ∈ output_order column_order input_columns)
                input_columns)) as [Hall|Hnot].
    + destruct (transform_csv_covered_returns input_columns rows
                  transformations column_order w Hrows Hk)
        as (tbl & w1 & E); [|congruence].
      by apply Forall_forall.
    + apply not_Forall_Exists in Hnot; [|intros x; apply _].
      apply Exists_exists in Hnot as (col & Hcol & Hout). by exists col.
Qed.

(** X16. With records that have every column, a run of [main] can fail in
    three ways only: the input runs out at the prompt ([EOFError]), [int]
    refuses an answer, or the writer refuses a record because the order
    typed in leaves out a column. It never fails on an unknown kind or a
    missing key, and when no reordering is asked for the writer does not
    fail either. *)
Theorem main_failures :
  forall output columns rows tape c,
    rows_complete columns rows ->
    forall e c', main output columns rows tape c = (IORaise e, c') ->
      e = EOFError
      \/ e = Uncaught (ValueError "invalid literal for int()")
      \/ (e = Uncaught (ValueError "dict contains fields not in fieldnames")
          /\ exists config names c1,
               interactive_mode columns c
               = (IOReturn (config, Some names), c1)
               /\ exists col, col ∈ columns /\ col ∉ names).
Proof.
  intros output columns rows tape c Hrows e c' H.
  unfold main, mbind, IO_bind, io_bind in H.
  destruct (interactive_mode_outcome columns c)
    as [(cfg & co & used & rest & w1 & E & _ & _ & Hcfg & Hco)|(e1 & c1 & E & He)].
  2:{ rewrite E in H. injection H as <- _. destruct He; auto. }
  rewrite E in H.
  assert (kinds_recognized (default ∅ (Some cfg)) columns) as Hk.
  { intros col kind _ Hkind. by apply (Hcfg col kind). }
  destruct (transform_csv columns rows (Some cfg) co
              (mkWorld new_transformer tape)) as [[tbl|e0] w'] eqn:Et.
  { unfold print in H. discriminate. }
  injection H as <- _.
  destruct (transform_csv_writer_failure _ _ _ _ _ _ _ Hrows Hk Et)
    as (-> & col & Hcol & Hout).
  right. right. split; [done|].
  destruct Hco as [->|(answer & ->)]; [done|].
  exists cfg, (map strip (split_on "," (strip answer))), (mkConsole rest w1).
  split; [done|]. exists col. split; [done|].
  pose proof (split_on_nonempty "," (strip answer)) as Hne.
  by destruct (split_on "," (strip answer)).
Qed.

Lemma main_failures_witness :
  Uncaught (ValueError "dict contains fields not in fieldnames") = EOFError
  \/ Uncaught (ValueError "dict contains fields not in fieldnames")
     = Uncaught (ValueError "invalid literal for int()")
  \/ (Uncaught (ValueError "dict contains fields not in fieldnames")
      = Uncaught (ValueError "dict contains fields not in fieldnames")
      /\ exists config names c1,
           interactive_mode ["a"; "b"] (mkConsole ["0"; "0"; "y"; "a"] [])
           = (IOReturn (config, Some names), c1)
           /\ exists col, col ∈ ["a"; "b"] /\ col ∉ names).
Proof.
  refine (main_failures "out.csv" ["a"; "b"]
            [ {[ "a" := "1"; "b" := "2" ]} ] []
            (mkConsole ["0"; "0"; "y"; "a"] []) _
            (Uncaught (ValueError "dict contains fields not in fieldnames"))
            (main "out.csv" ["a"; "b"] [ {[ "a" := "1"; "b" := "2" ]} ] []
               (mkConsole ["0"; "0"; "y"; "a"] [])).2 _).
  - intros row c Hrow Hc. apply list_elem_of_singleton in Hrow as ->.
    repeat (apply elem_of_cons in Hc as [->|Hc]; [by vm_compute; eexists|]).
    by apply elem_of_nil in Hc.
  - vm_compute. reflexivity.
Defined.

Lemma choose_all_zeros transformations_list columns :
  forall zeros config rest written,
    length zeros = length columns ->
    Forall zero_answer zeros ->
    exists written',
      choose_all columns transformations_list config
        (mkConsole (zeros ++ rest) written)
      = (IOReturn config, mkConsole rest written').
Proof.
  induction columns as [|column columns IH];
    intros zeros config rest written Hlen Hz.
  - destruct zeros; [|done]. by eexists.
  - destruct zeros as [|z zeros]; [done|].
    apply Forall_cons in Hz as [[Hd Hi] Hz]. injection Hlen as Hlen.
    cbn [choose_all]. unfold mbind, IO_bind, io_bind. cbn [stdin stdout].
    destruct (choose_transformation_skips column transformations_list []
                config written z (zeros ++ rest) 0) as [w1 E];
      [done|done|done|lia|].
    cbn [app] in E. change ((z :: zeros) ++ rest) with (z :: zeros ++ rest).
    rewrite E. cbn [Z.eqb]. by apply IH.
Qed.

Lemma interactive_mode_zeros columns zeros answer rest written :
  length zeros = length columns ->
  Forall zero_answer zeros ->
  String.eqb (lower (strip answer)) "y" = false ->
  exists written',
    interactive_mode columns (mkConsole (zeros ++ answer :: rest) written)
    = (IOReturn (∅, None), mkConsole rest written').
Proof.
  intros Hlen Hz Hno.
  unfold interactive_mode, mbind, IO_bind, io_bind, print.
  cbn [stdin stdout].
  match goal with
  | |- context [print_transformations 1 ?tl ?c0] =>
      destruct (print_transformations_ok tl 1 c0) as [w0 ->]
  end.
  cbn [stdin stdout].
  match goal with
  | |- context [choose_all columns ?tl ∅ (mkConsole _ ?w)] =>
      destruct (choose_all_zeros tl columns zeros ∅ (answer :: rest) w
                  Hlen Hz) as [w1 ->]
  end.
  unfold input. cbn [stdin stdout]. rewrite Hno. by eexists.
Qed.

(** X17. Answering 0 for every column and anything but y (in either case)
    to the question about the order makes [main] copy the table: with
    records that have every column it returns the input header and, for
    each record in order, the input values unchanged, and leaves the rest
    of the typed lines unread. *)
Theorem main_copies_on_zero_answers :
  forall output columns rows tape zeros answer rest written,
    rows_complete columns rows ->
    length zeros = length columns ->
    Forall zero_answer zeros ->
    String.eqb (lower (strip answer)) "y" = false ->
    exists written',
      main output columns rows tape
        (mkConsole (zeros ++ answer :: rest) written)
      = (IOReturn
           (mkcsv_table columns
              (map (fun row => map (fun key => default "" (row !! key))
                                   columns) rows)),
         mkConsole rest written').
Proof.
  intros output columns rows tape zeros answer rest written
         Hrows Hlen Hz Hno.
  destruct (interactive_mode_zeros columns zeros answer rest written
              Hlen Hz Hno) as [w1 E].
  unfold main, mbind, IO_bind, io_bind. rewrite E.
  destruct (transform_csv_plain columns rows None
              (mkWorld new_transformer tape) Hrows) as [-> ->]; [done|].
  cbn [output_order]. unfold print, mret, IO_ret, io_ret.
  cbn [stdin stdout]. eexists.
  do 3 f_equal. apply map_ext. intros row. apply map_ext_in.
  intros key Hkey. apply list_elem_of_In in Hkey. by rewrite decide_True.
Qed.

Lemma main_copies_on_zero_answers_witness :
  exists written',
    main "out.csv" ["col1"; "col2"]
      [ {[ "col1" := "value1"; "col2" := "value2" ]} ] [4%N]
      (mkConsole (["0"; " 00 "] ++ "yes" :: ["left"]) [])
    = (IOReturn
         (mkcsv_table ["col1"; "col2"]
            (map (fun row : gmap string string =>
                    map (fun key => default "" (row !! key))
                        ["col1"; "col2"])
                 [ {[ "col1" := "value1"; "col2" := "value2" ]} ])),
       mkConsole ["left"] written').
Proof.
  apply (main_copies_on_zero_answers "out.csv" ["col1"; "col2"]
           [ {[ "col1" := "value1"; "col2" := "value2" ]} ] [4%N]
           ["0"; " 00 "] "yes" ["left"] []).
  - intros row c Hrow Hc. apply list_elem_of_singleton in Hrow as ->.
    repeat (apply elem_of_cons in Hc as [->|Hc]; [by vm_compute; eexists|]).
    by apply elem_of_nil in Hc.
  - reflexivity.
  - apply List.Forall_cons; [split; reflexivity|].
    apply List.Forall_cons; [split; reflexivity|apply List.Forall_nil].
  - reflexivity.
Defined.

(** ** Redaction reveals the category only *)

Lemma redact_category_only v v' w :
  str_contains "@" v = str_contains "@" v' -> redact v w = redact v' w.
Proof. intros H. unfold redact. rewrite H. by destruct (str_contains "@" v'). Qed.

Lemma transform_columns_redacted transformations columns row row' :
  same_up_to_redacted transformations columns row row' ->
  forall acc w,
    transform_columns transformations row columns acc w
    = transform_columns transformations row' columns acc w.
Proof.
  induction columns as [|column columns IH]; intros Hsame acc w; [done|].
  cbn [transform_columns]. unfold mbind, M_bind, bind, getitem.
  pose proof (Hsame column (list_elem_of_here _ _)) as Hc.
  assert (same_up_to_redacted transformations columns row row') as Hrest.
  { intros c Hin. by apply Hsame, list_elem_of_further. }
  case_decide as Hk.
  - destruct (row !! column) as [v|], (row' !! column) as [v'|]; try done.
    cbn. rewrite Hk, !apply_transformation_redact.
    rewrite (redact_category_only v v' w Hc).
    destruct (redact v' w) as [[r|e] w1]; [|done]. by apply IH.
  - rewrite Hc. destruct (row' !! column) as [v'|]; [|done]. cbn.
    destruct (apply_transformation v' (transformations !! column) w)
      as [[r|e] w1]; [|done]. by apply IH.
Qed.

Lemma transform_rows_redacted transformations input_columns rows rows' :
  Forall2 (same_up_to_redacted transformations input_columns) rows rows' ->
  forall acc w,
    transform_rows transformations input_columns rows acc w
    = transform_rows transformations input_columns rows' acc w.
Proof.
  induction 1 as [|row row' rows rows' Hrow _ IH]; intros acc w; [done|].
  cbn [transform_rows]. unfold mbind, M_bind, bind.
  rewrite (transform_columns_redacted _ _ _ _ Hrow).
  destruct (transform_columns transformations row' input_columns ∅ w)
    as [[tr|e] w1]; [|done].
  apply IH.
Qed.

(** X18. Redaction reveals nothing but the category. If two inputs have
    the same records except that, under columns configured as redact,
    values are replaced by other values of the same category (with or
    without "@"), then [transform_csv] behaves identically on both: the
    same table or the same failure, and the same final state. *)
Theorem transform_csv_redacted_values_hidden :
  forall input_columns rows rows' transformations column_order w,
    Forall2 (same_up_to_redacted (default ∅ transformations) input_columns)
            rows rows' ->
    transform_csv input_columns rows transformations column_order w
    = transform_csv input_columns rows' transformations column_order w.
Proof.
  intros input_columns rows rows' transformations column_order w H.
  unfold transform_csv, mbind, M_bind, bind.
  by rewrite (transform_rows_redacted _ _ _ _ H).
Qed.

Lemma transform_csv_redacted_values_hidden_witness :
  transform_csv ["id"; "name"]
    [ {[ "id" := "u-1"; "name" := "John Doe" ]} ]
    (Some {[ "id" := "uuid_to_int"; "name" := "redact" ]}) None
    (mkWorld new_transformer [8%N; 2%N])
  = transform_csv ["id"; "name"]
      [ {[ "id" := "u-1"; "name" := "Ann Onymous" ]} ]
      (Some {[ "id" := "uuid_to_int"; "name" := "redact" ]}) None
      (mkWorld new_transformer [8%N; 2%N]).
Proof.
  apply (transform_csv_redacted_values_hidden ["id"; "name"]
           [ {[ "id" := "u-1"; "name" := "John Doe" ]} ]
           [ {[ "id" := "u-1"; "name" := "Ann Onymous" ]} ]
           (Some {[ "id" := "uuid_to_int"; "name" := "redact" ]}) None
           (mkWorld new_transformer [8%N; 2%N])).
  constructor; [|constructor].
  intros c Hc.
  repeat (apply elem_of_cons in Hc as [->|Hc]; [by vm_compute|]).
  by apply elem_of_nil in Hc.
Defined.

(** ** DateNormalizer: a canonical date reads back as itself *)

(** The three formats on what follows the year, for every month and day
    number: only the last one matches, to the end, with the two fields as
    printed. Decided by running the matcher on the 12 x 31 texts. *)
Lemma date_tail_matches m d :
  1 <= m <= 12 -> 1 <= d <= 31 ->
  first_match_format "-%b-%d" (date_tail m d) = None
  /\ first_match_format "-%m-%d %H:%M:%S" (date_tail m d) = None
  /\ first_match_format "-%m-%d" (date_tail m d)
     = Some ([("m"%char, pad2 m); ("d"%char, pad2 d)], EmptyString).
Proof.
  intros Hm Hd.
  assert (Forall (fun m => Forall (fun d =>
            first_match_format "-%b-%d" (date_tail m d) = None
            /\ first_match_format "-%m-%d %H:%M:%S" (date_tail m d) = None
            /\ first_match_format "-%m-%d" (date_tail m d)
               = Some ([("m"%char, pad2 m); ("d"%char, pad2 d)], EmptyString))
            (seqZ 1 31)) (seqZ 1 12)) as Hall.
  { apply (bool_decide_unpack _). vm_compute. exact I. }
  assert (m ∈ seqZ 1 12) as Hmin by (apply elem_of_seqZ; lia).
  assert (d ∈ seqZ 1 31) as Hdin by (apply elem_of_seqZ; lia).
  exact (proj1 (Forall_forall _ _)
           (proj1 (Forall_forall _ _) Hall m Hmin) d Hdin).
Qed.

Lemma strptime_first_match s fmt :
  strptime s fmt
  = match first_match_format fmt s with
    | Some (gs, EmptyString) =>
        d ← set_groups (mkdatetime 1900 1 1 0 0 0) gs;
        if datetime_valid d then Some d else None
    | _ => None
    end.
Proof.
  unfold strptime, first_match_format, first_match.
  destruct (compile_format fmt false) as [ps|]; [|reflexivity]. cbn.
  by destruct (match_pieces ps s) as [|[gs [|c rest]] ms].
Qed.

Lemma year_match y rest :
  re_match (RSeq digit (RSeq digit (RSeq digit digit))) (pad4 y +:+ rest)
  = [(pad4 y, rest)].
Proof.
  unfold pad4, pad2. rewrite !app_cons, app_empty.
  unfold digit. cbn [re_match].
  do 4 (cbn [flat_map map app]; rewrite is_digit_digit_char).
  reflexivity.
Qed.

Lemma first_match_year ftail y rest :
  first_match_format ("%Y" +:+ ftail) (pad4 y +:+ rest)
  = (fun '(gs, r) => (("Y"%char, pad4 y) :: gs, r))
      <$> first_match_format ftail rest.
Proof.
  unfold first_match_format, first_match.
  change ("%Y" +:+ ftail) with (String "%" (String "Y" ftail)).
  cbn [compile_format directive_regex].
  destruct (compile_format ftail false) as [ps|]; [|reflexivity].
  cbn [mbind option_bind match_pieces]. rewrite year_match.
  cbn [flat_map]. rewrite app_nil_r.
  by destruct (match_pieces ps rest) as [|[gs r] ms].
Qed.

Lemma strptime_canonical d :
  datetime_valid d = true -> 1000 <= year d ->
  strptime (strftime d "%Y-%m-%d") "%Y-%b-%d" = None
  /\ strptime (strftime d "%Y-%m-%d") "%Y-%m-%d %H:%M:%S" = None
  /\ strptime (strftime d "%Y-%m-%d") "%Y-%m-%d"
     = Some (mkdatetime (year d) (month d) (day d) 0 0 0).
Proof.
  intros Hvalid Hge.
  destruct (datetime_valid_ranges d Hvalid) as (Hy & Hm & Hd).
  destruct (date_tail_matches (month d) (day d) Hm Hd) as (T1 & T2 & T3).
  rewrite strftime_Y_m_d, (proj1 (proj2 (year_text _ Hy)) Hge).
  change (pad4 (year d) +:+ "-" +:+ pad2 (month d) +:+ "-" +:+ pad2 (day d))
    with (pad4 (year d) +:+ date_tail (month d) (day d)).
  change "%Y-%b-%d" with ("%Y" +:+ "-%b-%d").
  change "%Y-%m-%d %H:%M:%S" with ("%Y" +:+ "-%m-%d %H:%M:%S").
  change "%Y-%m-%d" with ("%Y" +:+ "-%m-%d").
  rewrite !strptime_first_match, !first_match_year, T1, T2, T3.
  split; [reflexivity|]. split; [reflexivity|].
  cbn [fmap option_fmap option_map set_groups set_group mbind option_bind].
  rewrite int_of_str_pad4 by lia. cbn [mbind option_bind].
  rewrite (int_of_str_pad2 (month d)) by lia. cbn [mbind option_bind].
  rewrite (int_of_str_pad2 (day d)) by lia.
  cbn [mbind option_bind year month day hour minute second].
  assert (datetime_valid (mkdatetime (year d) (month d) (day d) 0 0 0) = true)
    as ->; [|reflexivity].
  unfold datetime_valid in *. cbn [year month day hour minute second].
  repeat (apply andb_prop in Hvalid as [Hvalid ?]).
  repeat (apply andb_true_intro; split); done.
Qed.

Lemma is_digit_dash : is_digit "-" = false.
Proof. reflexivity. Qed.

(** Fewer than four digits before the dash: the year directive finds no
    match. *)
Lemma year_short_no_match ys rest :
  (String.length ys <= 3)%nat ->
  re_match (RSeq digit (RSeq digit (RSeq digit digit)))
           (ys +:+ String "-" rest) = [].
Proof.
  intros Hlen. unfold digit.
  destruct ys as [|c1 [|c2 [|c3 [|c4 ys]]]];
    [| | | |cbn in Hlen; lia];
    cbv [String.append]; cbn [re_match];
    repeat (cbn [flat_map map app];
            first [ rewrite is_digit_dash
                  | match goal with
                    | |- context [is_digit ?c] => destruct (is_digit c)
                    end ]);
    reflexivity.
Qed.

Lemma first_match_short_year ftail ys rest :
  (String.length ys <= 3)%nat ->
  first_match_format ("%Y" +:+ ftail) (ys +:+ String "-" rest) = None.
Proof.
  intros Hlen. unfold first_match_format, first_match.
  change ("%Y" +:+ ftail) with (String "%" (String "Y" ftail)).
  cbn [compile_format directive_regex].
  destruct (compile_format ftail false) as [ps|]; [|reflexivity].
  cbn [mbind option_bind match_pieces].
  by rewrite (year_short_no_match ys rest Hlen).
Qed.

(** Below the year 1000 the text printed for a date is no longer parsed
    by any of the formats. *)
Lemma strptime_short_year d fmt :
  datetime_valid d = true -> year d < 1000 -> fmt ∈ formats ->
  strptime (strftime d "%Y-%m-%d") fmt = None.
Proof.
  intros Hvalid Hlt Hin.
  destruct (datetime_valid_ranges d Hvalid) as (Hy & _).
  pose proof (proj2 (proj2 (year_text _ Hy)) Hlt) as Hlen.
  rewrite strftime_Y_m_d.
  change ("-" +:+ pad2 (month d) +:+ "-" +:+ pad2 (day d))
    with (String "-" (pad2 (month d) +:+ "-" +:+ pad2 (day d))).
  unfold formats in Hin.
  repeat (apply elem_of_cons in Hin as [->|Hin];
          [rewrite strptime_first_match;
           match goal with
           | |- context [first_match_format ?f _] =>
               change f with ("%Y" +:+ String.substring 2 (String.length f) f)
           end;
           by rewrite (first_match_short_year _ _ _ Hlen)|]).
  by apply elem_of_nil in Hin.
Qed.

Lemma rstrip_no_space s : no_space s = true -> rstrip s = s.
Proof.
  unfold no_space. induction s as [|c s IH]; [reflexivity|].
  cbn [str_forall rstrip]. intros [Hc Hs]%andb_prop. rewrite (IH Hs).
  destruct s; [|reflexivity]. by destruct (is_space c).
Qed.

Lemma strip_no_space s : no_space s = true -> strip s = s.
Proof.
  intros H. unfold strip.
  assert (lstrip s = s) as ->; [|by apply rstrip_no_space].
  destruct s as [|c s]; [reflexivity|]. unfold no_space in H.
  cbn [str_forall lstrip] in *. apply andb_prop in H as [Hc _].
  by destruct (is_space c).
Qed.

Lemma no_space_no_CET s : no_space s = true -> str_contains " CET" s = false.
Proof.
  unfold no_space. induction s as [|c s IH]; [reflexivity|].
  cbn [str_forall str_contains String.prefix]. intros [Hc Hs]%andb_prop.
  rewrite (IH Hs). destruct (ascii_dec " " c) as [<-|_]; [done|reflexivity].
Qed.

Lemma try_formats_parsed fmts p fmt d :
  fmt ∈ fmts -> strptime p fmt = Some d ->
  exists fmt' d', strptime p fmt' = Some d'
                  /\ try_formats fmts p = strftime d' "%Y-%m-%d".
Proof.
  induction fmts as [|f fmts IH]; intros Hin Hd; [by apply elem_of_nil in Hin|].
  cbn [try_formats]. destruct (strptime p f) as [d0|] eqn:E; [by eauto|].
  apply IH; [|done]. apply elem_of_cons in Hin as [->|?]; [congruence|done].
Qed.

Lemma timestamp_to_date_printed d :
  datetime_valid d = true ->
  timestamp_to_date (strftime d "%Y-%m-%d") = strftime d "%Y-%m-%d".
Proof.
  intros Hvalid. unfold timestamp_to_date, preprocess.
  rewrite replace_CET_absent by by apply no_space_no_CET, no_space_strftime.
  rewrite strip_no_space by by apply no_space_strftime.
  destruct (Z_lt_le_dec (year d) 1000) as [Hlt|Hge].
  - apply try_formats_none. intros fmt Hin. by apply strptime_short_year.
  - destruct (strptime_canonical d Hvalid Hge) as (H1 & H2 & H3).
    unfold formats. cbn [try_formats]. by rewrite H1, H2, H3.
Qed.

(** X19. What [timestamp_to_date] prints for a date, it returns unchanged
    when given it again. From the year 1000 on the text is the canonical
    one and reads back, under the year-month-day format, as the same
    year, month and day (at midnight), the two formats tried before it
    rejecting it; below the year 1000 the text has a shorter year, no
    format parses it, and it falls through as it is. Hence
    [timestamp_to_date] is idempotent on every input that one of the
    formats parses. *)
Theorem timestamp_to_date_canonical_fixed_point :
  (forall d, datetime_valid d = true -> 1000 <= year d ->
     strptime (strftime d "%Y-%m-%d") "%Y-%m-%d"
     = Some (mkdatetime (year d) (month d) (day d) 0 0 0))
  /\ (forall d fmt, datetime_valid d = true -> year d < 1000 ->
        fmt ∈ formats -> strptime (strftime d "%Y-%m-%d") fmt = None)
  /\ (forall d, datetime_valid d = true ->
        timestamp_to_date (strftime d "%Y-%m-%d") = strftime d "%Y-%m-%d")
  /\ (forall s fmt d,
        fmt ∈ formats -> strptime (preprocess s) fmt = Some d ->
        timestamp_to_date (timestamp_to_date s) = timestamp_to_date s).
Proof.
  split; [intros d Hvalid Hge; by apply strptime_canonical|].
  split; [intros d fmt; apply strptime_short_year|].
  split; [apply timestamp_to_date_printed|].
  intros s fmt d Hin Hd.
  destruct (try_formats_parsed formats (preprocess s) fmt d Hin Hd)
    as (fmt' & d' & Hd' & E).
  unfold timestamp_to_date at 2 3. rewrite E.
  apply timestamp_to_date_printed. by eapply strptime_valid.
Qed.

Lemma timestamp_to_date_canonical_fixed_point_witness :
  timestamp_to_date (timestamp_to_date "0999-01-01 16:54:43 CET")
  = timestamp_to_date "0999-01-01 16:54:43 CET"
  /\ timestamp_to_date "0999-01-01 16:54:43 CET" = "999-01-01".
Proof.
  split; [|vm_compute; reflexivity].
  apply (proj2 (proj2 (proj2 timestamp_to_date_canonical_fixed_point))
           "0999-01-01 16:54:43 CET" "%Y-%m-%d %H:%M:%S"
           (mkdatetime 999 1 1 16 54 43)).
  - unfold formats. apply list_elem_of_further, list_elem_of_here.
  - vm_compute. reflexivity.
Defined.

(** ** TableTransformEngine: one identifier column *)

Section OneIdentifierColumn.
Variable transformations : gmap string string.
Variable c : string.

Lemma transform_columns_one_identifier row columns :
  forall acc w tr w',
    only_identifier_column transformations c columns ->
    transform_columns transformations row columns acc w = (Return tr, w') ->
    (c ∈ columns ->
       exists v, row !! c = Some v
                 /\ self w' = (uuid_to_sequential_int v (self w)).2
                 /\ tr !! c = Some (VInt (uuid_to_sequential_int v (self w)).1))
    /\ (c ∉ columns -> self w' = self w).
Proof.
  induction columns as [|h columns IH]; intros acc w tr w' Honly H.
  - cbn in H. injection H as <- <-. split; [|done].
    intros Hin. by apply elem_of_nil in Hin.
  - assert (only_identifier_column transformations c columns) as Honly'.
    { intros c' Hc'. by apply Honly, list_elem_of_further. }
    cbn [transform_columns] in H. unfold mbind, M_bind, bind, getitem in H.
    destruct (row !! h) as [v|] eqn:Hv; [|done]. cbn in H.
    destruct (apply_transformation v (transformations !! h) w)
      as [[r|e] w1] eqn:Hr; [|done].
    destruct (IH _ _ _ _ Honly' H) as (Hin & Hout).
    destruct (transform_columns_spec _ _ _ _ _ _ _ H) as (_ & Hkeep & _).
    destruct (decide (h = c)) as [->|Hne].
    + rewrite (proj2 (Honly c (list_elem_of_here _ _)) eq_refl),
        apply_transformation_uuid in Hr.
      injection Hr as <- <-. split; [|intros []; apply list_elem_of_here].
      intros _. exists v. split; [done|].
      destruct (decide (c ∈ columns)) as [Htail|Htail].
      * destruct (Hin Htail) as (v' & Hv' & Hs & Htr). cbn [self] in Hs, Htr.
        assert (v' = v) as -> by congruence.
        pose proof (uuid_to_sequential_int_lookup (self w) v) as Hl.
        rewrite (uuid_to_sequential_int_seen _ _ _ Hl) in Hs, Htr.
        by split.
      * split; [by apply Hout|].
        by rewrite (Hkeep c Htail), lookup_insert_eq.
    + assert (self w1 = self w) as Hs1.
      { pose proof (apply_transformation_effect v (transformations !! h) w)
          as (_ & Hs & _).
        rewrite Hr in Hs. apply Hs. intros Hk.
        by apply Hne, (Honly h (list_elem_of_here _ _)). }
      rewrite Hs1 in Hin, Hout. split.
      * intros [?|Htail]%elem_of_cons; [congruence|]. by apply Hin.
      * intros Hnot. apply Hout. intros Htail.
        by apply Hnot, list_elem_of_further.
Qed.

Lemma transform_rows_one_identifier input_columns rows :
  only_identifier_column transformations c input_columns -> c ∈ input_columns ->
  forall w trs w',
    transform_rows transformations input_columns rows [] w = (Return trs, w') ->
    exists ids,
      Forall2 (fun row v => row !! c = Some v) rows ids
      /\ self w' = (map_calls ids (self w)).2
      /\ Forall2 (fun tr n => tr !! c = Some (VInt n))
                 trs (map_calls ids (self w)).1.
Proof.
  intros Honly Hc. induction rows as [|row rows IH]; intros w trs w' H.
  - cbn in H. injection H as <- <-. exists []. by repeat split.
  - rewrite transform_rows_cons in H.
    destruct (transform_columns transformations row input_columns ∅ w)
      as [[tr|e] w1] eqn:E0; [|done].
    destruct (transform_rows transformations input_columns rows [] w1)
      as [[trs'|e] w2] eqn:E1; [|done].
    injection H as <- <-.
    destruct (transform_columns_one_identifier _ _ _ _ _ _ Honly E0)
      as (Hin & _).
    destruct (Hin Hc) as (v & Hv & Hs & Htr).
    destruct (IH _ _ _ E1) as (ids & Hids & Hs' & Htrs).
    exists (v :: ids). cbn [map_calls]. rewrite Hs in Hs', Htrs.
    destruct (uuid_to_sequential_int v (self w)) as [n t1]. cbn in *.
    destruct (map_calls ids t1) as [ns t2]. cbn in *.
    split; [by constructor|]. split; [done|]. by constructor.
Qed.
End OneIdentifierColumn.

(** X20. One identifier column is numbered down the table. If [c] is the
    only input column configured as uuid_to_int, a run of [transform_csv]
    that returns has made exactly the calls of [uuid_to_sequential_int] on
    the values of column [c], record by record: the transformer ends in
    the state these calls lead to, and the cell of record [i] under [c] is
    the decimal text of the result of call [i]. On a fresh transformer
    this is the numbering 1, 2, 3, ... in order of first appearance. *)
Theorem transform_csv_numbers_identifier_column :
  forall input_columns rows transformations column_order w tbl w' c,
    c ∈ input_columns ->
    (forall c', c' ∈ input_columns ->
       (default ∅ transformations !! c' = Some "uuid_to_int" <-> c' = c)) ->
    transform_csv input_columns rows transformations column_order w
    = (Return tbl, w') ->
    exists ids,
      Forall2 (fun row v => row !! c = Some v) rows ids
      /\ self w' = (map_calls ids (self w)).2
      /\ forall i p rec,
           records tbl !! i = Some rec -> header tbl !! p = Some c ->
           rec !! p = str_of_int <$> (map_calls ids (self w)).1 !! i.
Proof.
  intros input_columns rows transformations column_order w tbl w' c
         Hc Honly H.
  destruct (transform_csv_returned _ _ _ _ _ _ _ H) as (trs & Htrs & _ & Hrec).
  destruct (transform_rows_one_identifier _ c input_columns rows Honly Hc
              _ _ _ Htrs) as (ids & Hids & Hs & Hcells).
  exists ids. split; [done|]. split; [done|].
  intros i p rec Hi Hp. rewrite Hrec, list_lookup_fmap in Hi.
  destruct (trs !! i) as [tr|] eqn:Htr; [|done]. injection Hi as <-.
  destruct (Forall2_lookup_l _ _ _ _ _ Hcells Htr) as (n & -> & Hn).
  unfold project. rewrite list_lookup_fmap, Hp. cbn. by rewrite Hn.
Qed.

Lemma transform_csv_numbers_identifier_column_witness :
  exists ids,
    Forall2 (fun (row : gmap string string) v => row !! "id" = Some v)
      [ {[ "id" := "UUID-123"; "date" := "2025-Mar-01" ]};
        {[ "id" := "UUID-456"; "date" := "2024-Dec-31" ]};
        {[ "id" := "UUID-123"; "date" := "2024-Dec-31" ]} ] ids
    /\ self (mkWorld (map_calls ["UUID-123"; "UUID-456"] new_transformer).2 [])
       = (map_calls ids (self (mkWorld new_transformer []))).2
    /\ forall i p rec,
         records (mkcsv_table ["date"; "id"]
                    [["2025-03-01"; "1"]; ["2024-12-31"; "2"];
                     ["2024-12-31"; "1"]]) !! i = Some rec ->
         header (mkcsv_table ["date"; "id"]
                   [["2025-03-01"; "1"]; ["2024-12-31"; "2"];
                    ["2024-12-31"; "1"]]) !! p = Some "id" ->
         rec !! p
         = str_of_int <$> (map_calls ids (self (mkWorld new_transformer []))).1 !! i.
Proof.
  refine (transform_csv_numbers_identifier_column ["id"; "date"]
            [ {[ "id" := "UUID-123"; "date" := "2025-Mar-01" ]};
              {[ "id" := "UUID-456"; "date" := "2024-Dec-31" ]};
              {[ "id" := "UUID-123"; "date" := "2024-Dec-31" ]} ]
            (Some {[ "id" := "uuid_to_int"; "date" := "timestamp_to_date" ]})
            (Some ["date"; "id"]) (mkWorld new_transformer [])
            _ _ "id" _ _ _).
  - apply list_elem_of_here.
  - intros c' Hc'. cbn [default].
    repeat (apply elem_of_cons in Hc' as [->|Hc']; [by vm_compute|]).
    by apply elem_of_nil in Hc'.
  - vm_compute. reflexivity.
Defined.
